(** * MusicAlgorithm: the melody walk of [music.py]

    A shallow embedding of [MusicComposer] (note graph, MIDI pitch
    conversion and the mood-weighted random walk [generate_melody]) and the
    properties of its specification.

    Numbers are what Python has: [int] is [Z], [float] is IEEE binary64,
    here Rocq's primitive [float] (same format, same round-to-nearest-even
    operations, literals rounded to the closest binary64 value as Python's
    parser does).  Python's [dict] keeps insertion order and the walk
    depends on the order of a node's neighbours, so dictionaries are
    association lists.  The module-level random generator is an explicit
    state threaded through the calls. *)

From Stdlib Require Import PrimFloat FloatAxioms SpecFloat FloatOps.
From Stdlib Require Import List String Ascii ZArith Lia Bool.
From Stdlib Require Import DecimalString Uint63.
From Equations Require Import Equations.
Import ListNotations.

#[local] Set Warnings "-inexact-float".

Set Implicit Arguments.
Local Open Scope string_scope.
Local Open Scope list_scope.
Local Open Scope Z_scope.

(* ================================================================== *)
(** ** Python exceptions and results

    [OtherError] is an exception of any other class, by the name of the
    class: what library code may raise by itself ([struct.error],
    [OSError]).  [InvalidArgumentError] is the argument error the
    specification names: the program defines no such class, and nothing
    below raises it. *)

Inductive exception : Type :=
| KeyError (key : string)
| IndexError
| ValueError
| ZeroDivisionError
| NetworkXError (node : string)
| OtherError (class_name : string)
| InvalidArgumentError.

Inductive result (A : Type) : Type :=
| Ok (a : A)
| Raise (e : exception).

Arguments Ok {A} a.
Arguments Raise {A} e.

Class Monad (m : Type -> Type) : Type :=
  { ret : forall A, A -> m A;
    bind : forall A B, m A -> (A -> m B) -> m B }.

Arguments ret {m _ A} _.
Arguments bind {m _ A B} _ _.

Declare Scope monad_scope.
Delimit Scope monad_scope with monad.
Notation "x <- c ;; k" := (bind c (fun x => k))
  (at level 61, c at next level, right associativity) : monad_scope.
Notation "' p <- c ;; k" := (bind c (fun x => let 'p := x in k))
  (at level 61, p pattern, c at next level, right associativity) : monad_scope.
Local Open Scope monad_scope.

#[export] Instance result_Monad : Monad result :=
  { ret := fun A a => Ok a;
    bind := fun A B c k => match c with Ok a => k a | Raise e => Raise e end }.

(** [for x in l: acc = body(acc, x)], stopping at the first exception. *)
Fixpoint for_each {m} `{Monad m} {A S : Type}
    (l : list A) (body : S -> A -> m S) (acc : S) : m S :=
  match l with
  | [] => ret acc
  | x :: l' => acc' <- body acc x ;; for_each l' body acc'
  end.

(** A list comprehension [[f(x) for x in l]] whose element can raise. *)
Fixpoint comprehension {m} `{Monad m} {A B : Type}
    (f : A -> m B) (l : list A) : m (list B) :=
  match l with
  | [] => ret []
  | x :: l' => y <- f x ;; ys <- comprehension f l' ;; ret (y :: ys)
  end.

(* ================================================================== *)
(** ** Python values: strings, sequences, dictionaries

    A [string] is a sequence of bytes: it stands for a Python string of
    ASCII characters, one byte each, which is what the program builds and
    passes around (note names such as [C4]).  [char_at] and [int_of_digit]
    agree with Python's indexing and [int] on such strings only. *)

(** [str(n)] for an [int]. *)
Definition str (n : Z) : string := NilEmpty.string_of_int (Z.to_int n).

(** [seq[i]] with Python's negative indices and [IndexError]. *)
Definition getitem {A : Type} (seq : list A) (i : Z) : result A :=
  let n := Z.of_nat (List.length seq) in
  let j := if i <? 0 then i + n else i in
  if (j <? 0) || (n <=? j) then Raise IndexError
  else match nth_error seq (Z.to_nat j) with
       | Some a => Ok a
       | None => Raise IndexError
       end.

(** [a % b] on [int]: the sign of the divisor, [ZeroDivisionError] at 0. *)
Definition py_mod (a b : Z) : result Z :=
  if b =? 0 then Raise ZeroDivisionError else Ok (a mod b).

(** [enumerate(l)]. *)
Fixpoint enumerate_from {A : Type} (i : Z) (l : list A) : list (Z * A) :=
  match l with
  | [] => []
  | x :: l' => (i, x) :: enumerate_from (i + 1) l'
  end.

Definition enumerate {A : Type} (l : list A) : list (Z * A) :=
  enumerate_from 0 l.

(** The character of a string at a position, as a one-character string. *)
Definition char_at (s : string) (i : nat) : result string :=
  match String.get i s with
  | Some c => Ok (String c EmptyString)
  | None => Raise IndexError
  end.

(** [int(s)] on the one-character strings the program passes to it. *)
Definition int_of_digit (s : string) : result Z :=
  match s with
  | String c EmptyString =>
      let n := nat_of_ascii c in
      if ((48 <=? n) && (n <=? 57))%nat
      then Ok (Z.of_nat n - 48) else Raise ValueError
  | _ => Raise ValueError
  end.

(** A [dict] with string keys, in insertion order. *)
Definition dict (V : Type) : Type := list (string * V).

Fixpoint dict_get {V : Type} (d : dict V) (k : string) : option V :=
  match d with
  | [] => None
  | (k', v) :: d' => if String.eqb k k' then Some v else dict_get d' k
  end.

(** [d[k]] *)
Definition dict_item {V : Type} (d : dict V) (k : string) : result V :=
  match dict_get d k with
  | Some v => Ok v
  | None => Raise (KeyError k)
  end.

(** [k in d] *)
Definition dict_mem {V : Type} (d : dict V) (k : string) : bool :=
  match dict_get d k with Some _ => true | None => false end.

(** [d[k] = v]: an existing key keeps its place, a new one goes last. *)
Fixpoint dict_set {V : Type} (d : dict V) (k : string) (v : V) : dict V :=
  match d with
  | [] => [(k, v)]
  | (k', v') :: d' =>
      if String.eqb k k' then (k', v) :: d' else (k', v') :: dict_set d' k v
  end.

Definition dict_keys {V : Type} (d : dict V) : list string := map fst d.

(* ================================================================== *)
(** ** networkx.DiGraph, as far as the program uses it

    [_node] maps a node to its (empty) attributes, [_succ] and [_pred] map
    a node to its successors and predecessors; the data of an edge is
    its only attribute, ['weight']. *)

Record DiGraph : Type :=
  { _node : list string;
    _succ : dict (dict float);
    _pred : dict (dict float) }.

Definition empty_graph : DiGraph :=
  {| _node := []; _succ := []; _pred := [] |}.

Definition add_node (G : DiGraph) (n : string) : DiGraph :=
  if dict_mem (_succ G) n then G
  else {| _node := _node G ++ [n];
          _succ := dict_set (_succ G) n [];
          _pred := dict_set (_pred G) n [] |}.

Definition inner (d : dict (dict float)) (k : string) : dict float :=
  match dict_get d k with Some a => a | None => [] end.

Definition add_edge (G : DiGraph) (u v : string) (weight : float) : DiGraph :=
  let G1 := add_node G u in
  let G2 := add_node G1 v in
  {| _node := _node G2;
     _succ := dict_set (_succ G2) u (dict_set (inner (_succ G2) u) v weight);
     _pred := dict_set (_pred G2) v (dict_set (inner (_pred G2) v) u weight) |}.

(** [list(G.neighbors(n))] *)
Definition neighbors (G : DiGraph) (n : string) : result (list string) :=
  match dict_get (_succ G) n with
  | Some a => Ok (dict_keys a)
  | None => Raise (NetworkXError n)
  end.

(** [G[u][v]['weight']] *)
Definition edge_weight (G : DiGraph) (u v : string) : result float :=
  a <- dict_item (_succ G) u ;; dict_item a v.

(** [G.nodes()] and [G.edges(data='weight')] *)
Definition nodes (G : DiGraph) : list string := _node G.

Definition edges (G : DiGraph) : list (string * string * float) :=
  flat_map (fun '(u, a) => map (fun '(v, w) => (u, v, w)) a) (_succ G).

Definition out_degree (G : DiGraph) (n : string) : nat :=
  List.length (inner (_succ G) n).

(* ================================================================== *)
(** ** MusicComposer *)

Record MusicComposer : Type :=
  { notes : list string;
    note_to_midi : dict Z;
    octaves : list Z;
    durations : list float;
    graph : DiGraph }.

(** The node name [f"{note}{octave}"]. *)
Definition node_name (note : string) (octave : Z) : string :=
  String.append note (str octave).

Definition W_step : float := 0.7%float.
Definition W_octave : float := 0.3%float.

Section Build.

(** The fields [_create_note_graph] reads from [self]. *)
Variable self_notes : list string.
Variable self_octaves : list Z.

Definition add_all_nodes (G : DiGraph) : DiGraph :=
  fold_left (fun G octave =>
    fold_left (fun G note => add_node G (node_name note octave))
              self_notes G)
    self_octaves G.

Definition add_octave_edges (note : string) (octave : Z) (G : DiGraph)
  : DiGraph :=
  fold_left (fun G other_octave =>
    if negb (other_octave =? octave)
    then add_edge G (node_name note octave) (node_name note other_octave)
                  W_octave
    else G)
    self_octaves G.

Definition add_note_edges (octave : Z) (G : DiGraph) (e : Z * string)
  : result DiGraph :=
  let '(i, note) := e in
  next_idx <- py_mod (i + 1) (Z.of_nat (List.length self_notes)) ;;
  prev_idx <- py_mod (i - 1) (Z.of_nat (List.length self_notes)) ;;
  next <- getitem self_notes next_idx ;;
  let G := add_edge G (node_name note octave) (node_name next octave)
                    W_step in
  prev <- getitem self_notes prev_idx ;;
  let G := add_edge G (node_name note octave) (node_name prev octave)
                    W_step in
  ret (add_octave_edges note octave G).

Definition add_all_edges (G : DiGraph) : result DiGraph :=
  for_each self_octaves
    (fun G octave => for_each (enumerate self_notes) (add_note_edges octave) G)
    G.

(** The body of [_create_note_graph], run on a graph [G]. *)
Definition create_note_graph_from (G : DiGraph) : result DiGraph :=
  add_all_edges (add_all_nodes G).

Definition _create_note_graph : result DiGraph :=
  create_note_graph_from empty_graph.

End Build.

(** [MusicComposer.__init__] *)
Definition MusicComposer_init : result MusicComposer :=
  let notes := ["C"; "D"; "E"; "F"; "G"; "A"; "B"] in
  let note_to_midi :=
    [("C", 60); ("D", 62); ("E", 64); ("F", 65); ("G", 67); ("A", 69);
     ("B", 71)] in
  let octaves := [4; 5] in
  let durations := [0.25; 0.5; 1]%float in
  G <- _create_note_graph notes octaves ;;
  ret {| notes := notes; note_to_midi := note_to_midi; octaves := octaves;
         durations := durations; graph := G |}.

(** [note_to_midi_number] *)
Definition note_to_midi_number (self : MusicComposer) (note : string)
  : result Z :=
  note_name <- char_at note 0 ;;
  digit <- char_at note 1 ;;
  octave <- int_of_digit digit ;;
  base <- dict_item (note_to_midi self) note_name ;;
  ret (base + (octave - 4) * 12).

(* ================================================================== *)
(** ** The graph as an object

    [nx.DiGraph()] makes a new object, and [add_node] and [add_edge] change
    the object a reference points to.  The objects live in a store, beside
    the state of the module-level random generator, which any code can
    draw from. *)

Module Objects.

Section Store.

Context {RNG : Type}.

Record store : Type := { objects : list DiGraph; generator : RNG }.

(** A reference is the position of its object in the store. *)
Definition ref : Type := nat.

Definition deref (s : store) (r : ref) : DiGraph :=
  nth r (objects s) empty_graph.

Fixpoint set_nth {A : Type} (n : nat) (x : A) (l : list A) : list A :=
  match l, n with
  | [], _ => []
  | _ :: l', O => x :: l'
  | y :: l', S n' => y :: set_nth n' x l'
  end.

Definition St (A : Type) : Type := store -> result A * store.

#[global] Instance St_Monad : Monad St :=
  { ret := fun A a s => (Ok a, s);
    bind := fun A B c k s =>
      match c s with
      | (Ok a, s') => k a s'
      | (Raise e, s') => (Raise e, s')
      end }.

Definition lift {A : Type} (r : result A) : St A := fun s => (r, s).

(** A method that changes the object behind a reference. *)
Definition mutate (G : ref) (f : DiGraph -> DiGraph) : St unit :=
  fun s => (Ok tt, {| objects := set_nth G (f (deref s G)) (objects s);
                      generator := generator s |}).

(** [nx.DiGraph()] *)
Definition DiGraph_new : St ref :=
  fun s => (Ok (List.length (objects s)),
            {| objects := objects s ++ [empty_graph];
               generator := generator s |}).

(** [G.add_node(n)] and [G.add_edge(u, v, weight=weight)] *)
Definition DiGraph_add_node (G : ref) (n : string) : St unit :=
  mutate G (fun g => add_node g n).

Definition DiGraph_add_edge (G : ref) (u v : string) (weight : float)
  : St unit :=
  mutate G (fun g => add_edge g u v weight).

(** [_create_note_graph], on graph objects. *)
Definition create_note_graph (self_notes : list string)
    (self_octaves : list Z) : St ref :=
  G <- DiGraph_new ;;
  _ <- for_each self_octaves
         (fun _ octave =>
            for_each self_notes
              (fun _ note => DiGraph_add_node G (node_name note octave))
              tt)
         tt ;;
  _ <- for_each self_octaves
         (fun _ octave =>
            for_each (enumerate self_notes)
              (fun _ e =>
                 let '(i, note) := e in
                 next_idx <-
                   lift (py_mod (i + 1) (Z.of_nat (List.length self_notes))) ;;
                 prev_idx <-
                   lift (py_mod (i - 1) (Z.of_nat (List.length self_notes))) ;;
                 next <- lift (getitem self_notes next_idx) ;;
                 _ <- DiGraph_add_edge G (node_name note octave)
                                       (node_name next octave) W_step ;;
                 prev <- lift (getitem self_notes prev_idx) ;;
                 _ <- DiGraph_add_edge G (node_name note octave)
                                       (node_name prev octave) W_step ;;
                 for_each self_octaves
                   (fun _ other_octave =>
                      if negb (other_octave =? octave)
                      then DiGraph_add_edge G (node_name note octave)
                                            (node_name note other_octave)
                                            W_octave
                      else ret tt)
                   tt)
              tt)
         tt ;;
  ret G.

(** The store that holds the objects [h] and, after them, [G]. *)
Definition focus (h : list DiGraph) (G : DiGraph) (g : RNG) : store :=
  {| objects := h ++ [G]; generator := g |}.

End Store.

Arguments store RNG : clear implicits.
Arguments St RNG A : clear implicits.

End Objects.

(* ================================================================== *)
(** ** The random source

    [random.random()] and the integer draw under [random.choice]
    ([Random._randbelow]) advance the generator's state. *)

Class RandomSource (RNG : Type) : Type :=
  { randbelow : nat -> RNG -> nat * RNG;
    random : RNG -> float * RNG }.

(** [0.0 <= x < 1.0] *)
Definition in_unit_interval (x : float) : Prop :=
  (0 <=? x)%float = true /\ (x <? 1)%float = true.

(** What the [random] module promises of its draws. *)
Class RandomSourceLaws (RNG : Type) `{RandomSource RNG} : Prop :=
  { randbelow_lt :
      forall n g, (0 < n)%nat -> (fst (randbelow n g) < n)%nat;
    random_unit : forall g, in_unit_interval (fst (random g)) }.

Arguments RandomSourceLaws RNG {_}.

(* ================================================================== *)
(** ** [itertools.accumulate] and [bisect.bisect_right] *)

Fixpoint accumulate_from (acc : float) (l : list float) : list float :=
  match l with
  | [] => []
  | x :: l' => (acc + x)%float :: accumulate_from (acc + x)%float l'
  end.

Definition accumulate (l : list float) : list float :=
  match l with
  | [] => []
  | x :: l' => x :: accumulate_from x l'
  end.

(** [while lo < hi: mid = (lo + hi) // 2; if x < a[mid]: hi = mid
    else: lo = mid + 1] and then [return lo]. *)
Equations? bisect_right (a : list float) (x : float) (lo hi : nat)
  : result nat by wf (hi - lo)%nat lt :=
  bisect_right a x lo hi with lt_dec lo hi := {
    | right _ := Ok lo
    | left _ with nth_error a ((lo + hi) / 2)%nat := {
        | None := Raise IndexError
        | Some a_mid with (x <? a_mid)%float := {
            | true := bisect_right a x lo ((lo + hi) / 2)%nat
            | false := bisect_right a x (S ((lo + hi) / 2)%nat) hi } } }.
Proof.
  all: change (fst (Nat.divmod (lo + hi) 1 0 1)) with ((lo + hi) / 2)%nat;
    assert (lo <= (lo + hi) / 2 < hi)%nat
      by (split; [apply Nat.div_le_lower_bound
                 | apply Nat.Div0.div_lt_upper_bound]; lia);
    lia.
Qed.

(** [sum(l)] of floats, added left to right from 0.  (From CPython 3.12 on
    [sum] also carries a compensation term, [compensated_sum] below; on the
    weights of this program both give the same total, see
    [compensated_sum_agrees].) *)
Definition sum (l : list float) : float := fold_left PrimFloat.add l 0%float.

Definition compensated_step (st : float * float) (x : float) : float * float :=
  let '(s, c) := st in
  let t := (s + x)%float in
  if (abs x <=? abs s)%float then (t, (c + ((s - t) + x))%float)
  else (t, (c + ((x - t) + s))%float).

Definition isfinite (x : float) : bool :=
  negb (PrimFloat.is_nan x || PrimFloat.is_infinity x).

Definition compensated_sum (l : list float) : float :=
  let '(s, c) := fold_left compensated_step l (0, 0)%float in
  if negb (c =? 0)%float && isfinite c then (s + c)%float else s.

(** [float(n)] for the length of a list. *)
Definition float_of_nat (n : nat) : float :=
  PrimFloat.of_uint63 (Uint63.of_Z (Z.of_nat n)).

(* ================================================================== *)
(** ** Calls on a composer: state and exceptions *)

Section Walk.

Context {RNG : Type} `{RandomSource RNG}.

(** The composer object and the generator a call runs against. *)
Record world : Type := { self : MusicComposer; rng : RNG }.

Definition M (A : Type) : Type := world -> result A * world.

#[export] Instance M_Monad : Monad M :=
  { ret := fun A a w => (Ok a, w);
    bind := fun A B c k w =>
      match c w with
      | (Ok a, w') => k a w'
      | (Raise e, w') => (Raise e, w')
      end }.

(** Reading [self] (possibly raising). *)
Definition read {A : Type} (f : MusicComposer -> result A) : M A :=
  fun w => (f (self w), w).

Definition lift {A : Type} (r : result A) : M A := fun w => (r, w).

(** [random.random()] *)
Definition random_random : M float :=
  fun w => let (x, g) := random (rng w) in
           (Ok x, {| self := self w; rng := g |}).

Definition random_randbelow (n : nat) : M nat :=
  fun w => let (i, g) := randbelow n (rng w) in
           (Ok i, {| self := self w; rng := g |}).

(** [random.choice(seq)] *)
Definition random_choice {A : Type} (seq : list A) : M A :=
  match seq with
  | [] => lift (Raise IndexError)
  | _ => i <- random_randbelow (List.length seq) ;;
         lift (getitem seq (Z.of_nat i))
  end.

(** [random.choices(population, weights=weights)], one draw ([k=1]). *)
Definition random_choices {A : Type} (population : list A)
    (weights : list float) : M (list A) :=
  let n := List.length population in
  let cum_weights := accumulate weights in
  if negb (List.length cum_weights =? n)%nat then lift (Raise ValueError)
  else
    last <- lift (getitem cum_weights (-1)) ;;
    let total := (last + 0)%float in
    if (total <=? 0)%float then lift (Raise ValueError)
    else if negb (isfinite total) then lift (Raise ValueError)
    else
      let hi := (n - 1)%nat in
      u <- random_random ;;
      i <- lift (bisect_right cum_weights (u * total)%float 0 hi) ;;
      x <- lift (getitem population (Z.of_nat i)) ;;
      ret [x].

(** ** [generate_melody] *)

Record mood_profile : Type :=
  { weight_mul : float; duration_pref : float }.

Definition mood_weights : dict mood_profile :=
  [("happy", {| weight_mul := 1.2; duration_pref := 0.25 |});
   ("sad", {| weight_mul := 0.8; duration_pref := 1 |});
   ("energetic", {| weight_mul := 1.5; duration_pref := 0.25 |});
   ("calm", {| weight_mul := 0.6; duration_pref := 0.5 |})]%float.

(** Lines 68-70:
    [[graph[current_note][next_note]['weight'] * mood_weights[mood]['weight_mul']
      for next_note in neighbors]] *)
Definition adjusted_weights (G : DiGraph) (current_note mood : string)
    (nbrs : list string) : result (list float) :=
  comprehension (fun next_note =>
      w <- edge_weight G current_note next_note ;;
      profile <- dict_item mood_weights mood ;;
      ret (w * weight_mul profile)%float)
    nbrs.

(** Lines 72-76. *)
Definition normalise (edge_weights : list float) (n_neighbors : nat)
  : list float :=
  let total_weight := sum edge_weights in
  if (0 <? total_weight)%float
  then map (fun w => (w / total_weight)%float) edge_weights
  else repeat (1 / float_of_nat n_neighbors)%float n_neighbors.

(** Lines 68-76 together: the weights handed to [random.choices]. *)
Definition transition_weights (G : DiGraph) (current_note mood : string)
    (nbrs : list string) : result (list float) :=
  edge_weights <- adjusted_weights G current_note mood nbrs ;;
  ret (normalise edge_weights (List.length nbrs)).

(** Lines 64-78 of the loop body: [None] is the [break]. *)
Definition choose_next (mood current_note : string) : M (option string) :=
  nbrs <- read (fun self => neighbors (graph self) current_note) ;;
  match nbrs with
  | [] => ret None
  | _ =>
      edge_weights <-
        read (fun self =>
                transition_weights (graph self) current_note mood nbrs) ;;
      chosen <- random_choices nbrs edge_weights ;;
      next_note <- lift (getitem chosen 0) ;;
      ret (Some next_note)
  end.

(** The loop [for _ in range(length)], on its remaining iterations. *)
Fixpoint walk (iterations : nat) (mood current_note : string)
    (melody : list string) (weights : list float)
  : M (list string * list float) :=
  match iterations with
  | O => ret (melody, weights)
  | S iterations' =>
      let melody := melody ++ [current_note] in
      step <- choose_next mood current_note ;;
      match step with
      | None => ret (melody, weights)
      | Some next_note =>
          x <- random_random ;;
          walk iterations' mood next_note melody (weights ++ [x])
      end
  end.

Definition start_notes (self : MusicComposer) : list string :=
  flat_map (fun note => map (fun octave => node_name note octave)
                            (octaves self))
           (notes self).

Definition generate_melody (length : Z) (mood : string)
  : M (list string * list float) :=
  candidates <- read (fun self => Ok (start_notes self)) ;;
  current_note <- random_choice candidates ;;
  walk (Z.to_nat length) mood current_note [] [].

(** The world after a draw of [random.random()], of [_randbelow(n)]. *)
Definition after_random (w : world) : world :=
  {| self := self w; rng := snd (random (rng w)) |}.

Definition after_randbelow (n : nat) (w : world) : world :=
  {| self := self w; rng := snd (randbelow n (rng w)) |}.

(** The values [random.random()] can return. *)
Definition drawn (x : float) : Prop := exists g, x = fst (random g).

(** A call that leaves the composer object as it found it. *)
Definition preserves_self {A : Type} (c : M A) : Prop :=
  forall w, self (snd (c w)) = self w.

End Walk.

Arguments world RNG : clear implicits.
Arguments M RNG A : clear implicits.

(** A small deterministic generator to run the walk on. *)
Module Cycle.

Definition draws : list float := [0; 0.5; 0.25; 0.875; 0.95]%float.

#[export] Instance source : RandomSource nat :=
  { randbelow := fun n g => ((g mod n)%nat, S g);
    random := fun g => (nth (g mod 5)%nat draws 0%float, S g) }.

End Cycle.

Import Cycle.

(** The composer that [MusicComposer()] constructs (see
    [MusicComposer_init_ok]). *)
Definition composer0 : MusicComposer :=
  Eval vm_compute in
    match MusicComposer_init with
    | Ok c => c
    | Raise _ => {| notes := []; note_to_midi := []; octaves := [];
                    durations := []; graph := empty_graph |}
    end.

(** The world of a fresh composer and the cycle generator at a seed. *)
Definition world0 (seed : nat) : world nat :=
  {| self := composer0; rng := seed |}.

(** The moods of [mood_weights] and the base pitches of [note_to_midi]. *)
Definition valid_moods : list string := ["happy"; "sad"; "energetic"; "calm"].

Definition base_pitch : dict Z :=
  [("C", 60); ("D", 62); ("E", 64); ("F", 65); ("G", 67); ("A", 69);
   ("B", 71)].

(** The pitch class [name_{i mod n}] of a list of [n] names. *)
Definition pitch_class (names : list string) (i : Z) : string :=
  nth (Z.to_nat (i mod Z.of_nat (List.length names))) names "".

(** What the specification gives a node [(name_i, octave)] as outgoing
    edges: both step neighbours, then the same name in each other octave. *)
Definition expected_out (names : list string) (octs : list Z)
    (i octave : Z) : dict float :=
  [(node_name (pitch_class names (i + 1)) octave, W_step);
   (node_name (pitch_class names (i - 1)) octave, W_step)]
  ++ map (fun o' => (node_name (pitch_class names i) o', W_octave))
         (filter (fun o' => negb (o' =? octave)) octs).

(** Every node of the graph has the same pattern of outgoing weights. *)
Definition step_pattern : list float := [W_step; W_step; W_octave].

(** The weights the walk hands to the sampler under a multiplier. *)
Definition pattern_distribution (mul : float) : list float :=
  normalise (map (fun w => (w * mul)%float) step_pattern) 3.

(** The cumulative weights of the sampler at every node, under every mood. *)
Definition cum0 : list float :=
  accumulate [0.84 / 2.04; 0.84 / 2.04; 0.36 / 2.04]%float.

(** Two floats at most one unit in the last place (2^-55) apart. *)
Definition close (x y : float) : Prop :=
  (abs (x - y) <=? 0x1p-55)%float = true.

(** The distribution of the specification: the adjusted weights divided by
    their sum when the sum is strictly positive, uniform otherwise. *)
Definition uniform (n : nat) : list float :=
  repeat (1 / float_of_nat n)%float n.

Definition spec_distribution (adjusted : list float) : list float :=
  if (0 <? sum adjusted)%float
  then map (fun a => (a / sum adjusted)%float) adjusted
  else uniform (List.length adjusted).

(** Two floats agree to three decimal places. *)
Definition approx3 (x y : float) : Prop :=
  (abs (x - y) <=? 0.0005)%float = true.

(* ================================================================== *)
(** ** [generate_melody_with_midi]

    The [MIDIFile] object is the record of the calls it has accepted, in
    order.  The library, midiutil, is not part of the program: a call on
    the object is either accepted or raises, and so does writing the file
    out ([open] and [writeFile]); which, is the library's business and may
    depend on the calls accepted before.  [generate_melody_with_midi]
    returns, beside [(melody, weights)], the [MIDIFile] it has written to
    [temp_melody.mid]; what is left on disk when it raises is not part of
    the model. *)

Inductive midi_call : Type :=
| addTempo (track time tempo : Z)
| addNote (track channel pitch time duration volume : Z).

Definition MIDIFile : Type := list midi_call.

Class MidiLibrary : Type :=
  { addTempo_raises : MIDIFile -> Z -> Z -> Z -> option exception;
    addNote_raises :
      MIDIFile -> Z -> Z -> Z -> Z -> Z -> Z -> option exception;
    writeFile_raises : MIDIFile -> option exception }.

Section MidiCalls.

Context `{MidiLibrary}.

(** [midifile.addTempo(track, time, tempo)] *)
Definition MIDIFile_addTempo (midifile : MIDIFile) (track time tempo : Z)
  : result MIDIFile :=
  match addTempo_raises midifile track time tempo with
  | Some e => Raise e
  | None => Ok (midifile ++ [addTempo track time tempo])
  end.

(** [midifile.addNote(track, channel, pitch, time, duration, volume)] *)
Definition MIDIFile_addNote (midifile : MIDIFile)
    (track channel pitch time duration volume : Z) : result MIDIFile :=
  match addNote_raises midifile track channel pitch time duration volume with
  | Some e => Raise e
  | None =>
      Ok (midifile ++ [addNote track channel pitch time duration volume])
  end.

(** [with open(midi_path, "wb") as f: midifile.writeFile(f)] *)
Definition MIDIFile_writeFile (midifile : MIDIFile) : result unit :=
  match writeFile_raises midifile with
  | Some e => Raise e
  | None => Ok tt
  end.

(** Lines 97-101: the loop over the melody, on the file and the time
    counter. *)
Definition add_melody_notes (self : MusicComposer) (track channel volume : Z)
    (melody : list string) (st : MIDIFile * Z) : result (MIDIFile * Z) :=
  for_each melody
    (fun st note =>
       let '(midifile, time_counter) := st in
       midi_note <- note_to_midi_number self note ;;
       let duration := 1 in
       midifile <- MIDIFile_addNote midifile track channel midi_note
                                    time_counter duration volume ;;
       ret (midifile, time_counter + 1))
    st.




End MidiCalls.

(** A library to run the program on: it refuses the tempo 0 in [addTempo]
    (a division by the tempo) and a file with a negative tempo in
    [writeFile] (the tempo is packed as an unsigned number), and accepts
    everything else. *)
Module TempoChecks.

Definition negative_tempo (c : midi_call) : bool :=
  match c with
  | addTempo _ _ tempo => tempo <? 0
  | addNote _ _ _ _ _ _ => false
  end.

#[export] Instance library : MidiLibrary :=
  { addTempo_raises := fun _ _ _ tempo =>
      if tempo =? 0 then Some ZeroDivisionError else None;
    addNote_raises := fun _ _ _ _ _ _ _ => None;
    writeFile_raises := fun midifile =>
      if existsb negative_tempo midifile
      then Some (OtherError "struct.error") else None }.

End TempoChecks.

Import TempoChecks.

Section Midi.

Context {RNG : Type} `{RandomSource RNG} `{MidiLibrary}.

Definition generate_melody_with_midi (length : Z) (mood : string) (tempo : Z)
  : M RNG ((list string * list float) * MIDIFile) :=
  mw <- generate_melody length mood ;;
  let '(melody, weights) := mw in
  let midifile : MIDIFile := [] in
  let track := 0 in
  let time_counter := 0 in
  let channel := 0 in
  let volume := 100 in
  midifile <- lift (MIDIFile_addTempo midifile track time_counter tempo) ;;
  st <- read (fun self =>
                add_melody_notes self track channel volume melody
                                 (midifile, time_counter)) ;;
  _ <- lift (MIDIFile_writeFile (fst st)) ;;
  ret ((melody, weights), fst st).

(** The generator after [k] draws of [random.random()]. *)
Definition skip_draws (k : nat) (g : RNG) : RNG :=
  Nat.iter k (fun g => snd (random g)) g.

(** The draws number 2, 4, ..., 2n of a generator. *)
Definition intensity_draws (n : nat) (g : RNG) : list float :=
  map (fun k => fst (random (skip_draws (2 * k + 1) g))) (seq 0 n).

End Midi.

(* ================================================================== *)
(** ** [create_figure]

    The figure is the data handed to plotly: its traces and the layout
    settings. *)

Record Scatter : Type :=
  { scatter_x : list Z;
    scatter_y : list float;
    scatter_mode : string;
    scatter_line_color : string;
    scatter_name : string }.

Record Figure : Type :=
  { fig_data : list Scatter;
    fig_title : string;
    fig_xaxis_title : string;
    fig_yaxis_title : string;
    fig_showlegend : bool;
    fig_height : Z }.

(** [list(range(n))] *)
Definition range (n : nat) : list Z := map Z.of_nat (seq 0 n).

(** [float(n)] for an [int]. *)
Definition float_of_int (n : Z) : float :=
  if n <? 0 then (- PrimFloat.of_uint63 (Uint63.of_Z (- n)))%float
  else PrimFloat.of_uint63 (Uint63.of_Z n).

(** [ord(s[i])] *)
Definition ord_at (s : string) (i : nat) : result Z :=
  match String.get i s with
  | Some c => Ok (Z.of_nat (nat_of_ascii c))
  | None => Raise IndexError
  end.

(** [ord(note[0]) + float(note[1]) * 12]; on a one-character string
    [float] accepts what [int] accepts, the digits. *)
Definition note_value (note : string) : result float :=
  o <- ord_at note 0 ;;
  digit <- char_at note 1 ;;
  d <- int_of_digit digit ;;
  ret (float_of_int o + float_of_int d * 12)%float.

(** The truth value of an optional list: [None] and [[]] are false. *)
Definition truthy {A : Type} (l : option (list A)) : bool :=
  match l with
  | Some (_ :: _) => true
  | _ => false
  end.

(** The two traces, and the layout every figure gets. *)
Definition melody_trace (x : list Z) (y : list float) : Scatter :=
  {| scatter_x := x; scatter_y := y; scatter_mode := "lines+markers";
     scatter_line_color := "blue"; scatter_name := "Melody" |}.

Definition intensity_trace (x : list Z) (y : list float) : Scatter :=
  {| scatter_x := x; scatter_y := y; scatter_mode := "lines";
     scatter_line_color := "red"; scatter_name := "Intensity" |}.

Definition figure_with (data : list Scatter) : Figure :=
  {| fig_data := data;
     fig_title := "Melody Visualization";
     fig_xaxis_title := "Time";
     fig_yaxis_title := "Note Value";
     fig_showlegend := true;
     fig_height := 500 |}.

Definition create_figure (melody : option (list string))
    (weights : option (list float)) : result Figure :=
  data <-
    match melody, weights with
    | Some melody', Some weights' =>
        if truthy melody && truthy weights then
          let x := range (List.length melody') in
          y <- comprehension note_value melody' ;;
          ret [melody_trace x y; intensity_trace x weights']
        else ret []
    | _, _ => ret []
    end ;;
  ret (figure_with data).

(* ================================================================== *)
(** ** Vocabulary for the added properties *)

(** The successors of a node, in the order [neighbors] gives them. *)
Definition successors (G : DiGraph) (n : string) : list string :=
  dict_keys (inner (_succ G) n).

(** A list of notes in which each one is a successor of the one before. *)
Fixpoint chain (G : DiGraph) (l : list string) : Prop :=
  match l with
  | a :: (b :: _) as tl => In b (successors G a) /\ chain G tl
  | _ => True
  end.

(** [v] is reached from [u] along at most [n] edges. *)
Inductive reachable_in (G : DiGraph) (u : string) : nat -> string -> Prop :=
| reach_here : forall n, reachable_in G u n u
| reach_step : forall n a b,
    reachable_in G u n a -> In b (successors G a) ->
    reachable_in G u (S n) b.

(** The notes reached from [u] along at most [n] edges. *)
Fixpoint reach (G : DiGraph) (n : nat) (u : string) : list string :=
  match n with
  | O => [u]
  | S k => let r := reach G k u in r ++ flat_map (successors G) r
  end.

(** The decimal digits as characters, their value, and a character as a
    one-character string. *)
Definition is_digit (c : ascii) : bool :=
  ((48 <=? nat_of_ascii c) && (nat_of_ascii c <=? 57))%nat.

Definition digit_value (c : ascii) : Z := Z.of_nat (nat_of_ascii c) - 48.

Definition char (c : ascii) : string := String c EmptyString.

(** A string of ASCII characters only (every byte below 128). *)
Fixpoint ascii_only (s : string) : bool :=
  match s with
  | EmptyString => true
  | String c s' => (nat_of_ascii c <? 128)%nat && ascii_only s'
  end.

(** The plotted values of the graph's notes lie between 113 and 131. *)
Definition plotted (y : float) : Prop :=
  (113 <=? y)%float = true /\ (y <=? 131)%float = true.

Section Reads.

Context {RNG : Type} `{RandomSource RNG}.

(** Two worlds that agree on the fields [notes], [octaves] and [graph] of
    the composer and on the generator. *)
Definition same_inputs (w1 w2 : world RNG) : Prop :=
  notes (self w1) = notes (self w2)
  /\ octaves (self w1) = octaves (self w2)
  /\ graph (self w1) = graph (self w2)
  /\ rng w1 = rng w2.

(** A call whose outcome is the same in two such worlds. *)
Definition respects {A : Type} (c : M RNG A) : Prop :=
  forall w1 w2, same_inputs w1 w2 ->
    fst (c w1) = fst (c w2) /\ same_inputs (snd (c w1)) (snd (c w2)).

End Reads.

(** Composers other than the constructor's, to run the walk on: one whose
    only note has no outgoing edge, one whose graph lacks the note, one
    without notes, and the constructor's with two fields emptied. *)
Definition dead_end_composer : MusicComposer :=
  {| notes := ["C"]; note_to_midi := [("C", 60)]; octaves := [4];
     durations := []; graph := add_node empty_graph "C4" |}.

Definition detached_composer : MusicComposer :=
  {| notes := ["C"]; note_to_midi := [("C", 60)]; octaves := [4];
     durations := []; graph := empty_graph |}.

Definition silent_composer : MusicComposer :=
  {| notes := []; note_to_midi := []; octaves := [4; 5];
     durations := []; graph := empty_graph |}.

Definition stripped_composer : MusicComposer :=
  {| notes := notes composer0; note_to_midi := []; octaves := octaves composer0;
     durations := []; graph := graph composer0 |}.

(** The offset between the plotted value of a note and its MIDI number,
    by pitch class: [ord(name) + 48 - note_to_midi[name]]. *)
Definition plot_offset : dict Z :=
  [("C", 55); ("D", 54); ("E", 53); ("F", 53); ("G", 52); ("A", 44);
   ("B", 43)].

(* ================================================================== *)
(** * Properties of the note graph *)

Lemma MusicComposer_init_ok : MusicComposer_init = Ok composer0.
Proof. vm_compute. reflexivity. Qed.

Lemma init_inv (c : MusicComposer) :
  MusicComposer_init = Ok c -> c = composer0.
Proof. rewrite MusicComposer_init_ok. intros E. now inversion E. Qed.

Lemma octave_cases (octave : Z) :
  In octave (octaves composer0) -> octave = 4 \/ octave = 5.
Proof. intros H. vm_compute in H. destruct H as [<- | [<- | []]]; auto. Qed.

Lemma index_cases (i : Z) :
  0 <= i < 7 ->
  i = 0 \/ i = 1 \/ i = 2 \/ i = 3 \/ i = 4 \/ i = 5 \/ i = 6.
Proof. lia. Qed.

Ltac each_index H :=
  apply index_cases in H;
  destruct H as [-> | [-> | [-> | [-> | [-> | [-> | ->]]]]]].

Ltac each_octave H :=
  apply octave_cases in H; destruct H as [-> | ->].

Ltac node_at i octave :=
  exists i, octave;
  split; [lia | split; [vm_compute; tauto | vm_compute; reflexivity]].

Ltac find_node :=
  first [ node_at 0 4 | node_at 1 4 | node_at 2 4 | node_at 3 4
        | node_at 4 4 | node_at 5 4 | node_at 6 4
        | node_at 0 5 | node_at 1 5 | node_at 2 5 | node_at 3 5
        | node_at 4 5 | node_at 5 5 | node_at 6 5 ].

Lemma note_graph_node_names (n : string) :
  In n (nodes (graph composer0)) <->
  exists i octave,
    0 <= i < 7 /\ In octave (octaves composer0)
    /\ n = node_name (pitch_class (notes composer0) i) octave.
Proof.
  split.
  - intros Hn. vm_compute in Hn.
    repeat (destruct Hn as [<- | Hn]); try contradiction; find_node.
  - intros (i & octave & Hi & Ho & ->).
    each_index Hi; each_octave Ho; vm_compute; tauto.
Qed.

Lemma note_graph_out (i octave : Z) :
  0 <= i < 7 ->
  In octave (octaves composer0) ->
  dict_get (_succ (graph composer0))
           (node_name (pitch_class (notes composer0) i) octave)
  = Some (expected_out (notes composer0) (octaves composer0) i octave).
Proof.
  intros Hi Ho. each_index Hi; each_octave Ho; vm_compute; reflexivity.
Qed.

Lemma note_graph_degrees (n : string) :
  In n (nodes (graph composer0)) ->
  (2 <= out_degree (graph composer0) n
   <= 2 + (List.length (octaves composer0) - 1))%nat.
Proof.
  intros Hn. vm_compute in Hn.
  repeat (destruct Hn as [<- | Hn]); try contradiction; vm_compute;
    split; repeat constructor.
Qed.

Lemma note_graph_all_edges (u v : string) (w : float) :
  In (u, v, w) (edges (graph composer0)) ->
  In u (nodes (graph composer0)) /\ In v (nodes (graph composer0))
  /\ u <> v /\ (0 <? w)%float = true.
Proof.
  intros He. vm_compute in He.
  repeat (destruct He as [He | He];
          [inversion He; subst; clear He;
           split; [vm_compute; tauto |];
           split; [vm_compute; tauto |];
           split; [discriminate | reflexivity] |]).
  contradiction.
Qed.

(** C4: in the graph built for the 7 pitch classes and octaves 4 and 5 the
    nodes are exactly the notes (name_i, octave), and only they have
    outgoing edges; the outgoing edges of every node (name_i, octave) are
    exactly the edge to (name_(i+1 mod 7), octave) with weight 0.7, the edge
    to (name_(i-1 mod 7), octave) with weight 0.7 and an edge of weight 0.3
    to (name_i, o') for each other octave o'; so every node has out-degree
    at least 2 and at most 2 + (|octaves| - 1), and no edge of the graph is
    a self-loop or has a weight that is zero or negative. *)
Theorem note_graph_edges (c : MusicComposer) :
  MusicComposer_init = Ok c ->
  (forall n, In n (nodes (graph c)) <->
     exists i octave,
       0 <= i < 7 /\ In octave (octaves c)
       /\ n = node_name (pitch_class (notes c) i) octave)
  /\ dict_keys (_succ (graph c)) = nodes (graph c)
  /\ (forall i octave,
        0 <= i < 7 -> In octave (octaves c) ->
        dict_get (_succ (graph c)) (node_name (pitch_class (notes c) i) octave)
        = Some (expected_out (notes c) (octaves c) i octave))
  /\ (forall n, In n (nodes (graph c)) ->
        (2 <= out_degree (graph c) n
         <= 2 + (List.length (octaves c) - 1))%nat)
  /\ (forall u v w, In (u, v, w) (edges (graph c)) ->
        In u (nodes (graph c)) /\ In v (nodes (graph c))
        /\ u <> v /\ (0 <? w)%float = true)
  /\ W_step = 0.7%float /\ W_octave = 0.3%float.
Proof.
  intros Hc. apply init_inv in Hc. subst c.
  split; [exact note_graph_node_names |].
  split; [reflexivity |].
  split; [exact note_graph_out |].
  split; [exact note_graph_degrees |].
  split; [exact note_graph_all_edges |].
  split; reflexivity.
Qed.

Lemma note_graph_edges_witness :
  In "C4" (nodes (graph composer0))
  /\ dict_get (_succ (graph composer0)) "C4"
     = Some [("D4", W_step); ("B4", W_step); ("C5", W_octave)]
  /\ (0 <? W_octave)%float = true.
Proof.
  destruct (@note_graph_edges composer0 MusicComposer_init_ok)
    as (Hnodes & _ & Hout & _ & Hedges & _).
  split; [apply Hnodes; node_at 0 4 |].
  split; [apply (Hout 0 4); [lia | vm_compute; tauto] |].
  apply (Hedges "C4" "C5" W_octave). vm_compute. tauto.
Defined.

(** The nodes are the 14 notes, octave by octave. *)
Lemma note_graph_nodes :
  nodes (graph composer0)
  = flat_map (fun octave => map (fun note => node_name note octave)
                                (notes composer0))
             (octaves composer0).
Proof. vm_compute. reflexivity. Qed.

(** C7: the neighbours of C4 are exactly D4 (0.7), B4 (0.7) and C5 (0.3);
    under mood happy (multiplier 1.2) the adjusted weights are 0.84, 0.84
    and 0.36, their sum is 2.04, and the normalised transition
    probabilities are 0.84/2.04, 0.84/2.04 and 0.36/2.04, that is 0.412,
    0.412 and 0.176 to three decimals. *)
Theorem c4_happy_transition :
  exists c,
    MusicComposer_init = Ok c
    /\ dict_get (_succ (graph c)) "C4"
       = Some [("D4", 0.7); ("B4", 0.7); ("C5", 0.3)]%float
    /\ neighbors (graph c) "C4" = Ok ["D4"; "B4"; "C5"]
    /\ option_map weight_mul (dict_get mood_weights "happy") = Some 1.2%float
    /\ adjusted_weights (graph c) "C4" "happy" ["D4"; "B4"; "C5"]
       = Ok [0.84; 0.84; 0.36]%float
    /\ sum [0.84; 0.84; 0.36]%float = 2.04%float
    /\ transition_weights (graph c) "C4" "happy" ["D4"; "B4"; "C5"]
       = Ok [0.84 / 2.04; 0.84 / 2.04; 0.36 / 2.04]%float
    /\ approx3 (0.84 / 2.04) 0.412
    /\ approx3 (0.36 / 2.04) 0.176.
Proof.
  exists composer0. split; [exact MusicComposer_init_ok |].
  repeat split; vm_compute; reflexivity.
Qed.

Section StoreFacts.

Import Objects.

Context {RNG : Type}.

Lemma set_nth_focus {A : Type} (h : list A) (x y : A) :
  set_nth (List.length h) y (h ++ [x]) = h ++ [y].
Proof. induction h as [| a h IH]; cbn; [reflexivity | now rewrite IH]. Qed.

Lemma deref_focus (h : list DiGraph) (G : DiGraph) (g : RNG) :
  deref (focus h G g) (List.length h) = G.
Proof. unfold deref, focus. cbn. apply nth_middle. Qed.

Lemma mutate_focus (h : list DiGraph) (G : DiGraph) (g : RNG)
    (f : DiGraph -> DiGraph) :
  mutate (List.length h) f (focus h G g) = (Ok tt, focus h (f G) g).
Proof.
  unfold mutate. rewrite deref_focus. unfold focus. cbn.
  now rewrite set_nth_focus.
Qed.

Lemma for_each_focus_fold {A : Type} (l : list A)
    (body : unit -> A -> St RNG unit) (f : DiGraph -> A -> DiGraph)
    (h : list DiGraph) (g : RNG) :
  (forall G x, body tt x (focus h G g) = (Ok tt, focus h (f G x) g)) ->
  forall G,
    for_each l body tt (focus h G g) = (Ok tt, focus h (fold_left f l G) g).
Proof.
  intros Hbody. induction l as [| x l IH]; intros G; [reflexivity |].
  cbn [for_each fold_left bind St_Monad]. rewrite Hbody. apply IH.
Qed.

Lemma for_each_focus {A : Type} (l : list A)
    (body : unit -> A -> St RNG unit) (step : DiGraph -> A -> result DiGraph)
    (h : list DiGraph) (g : RNG) :
  (forall G x G', step G x = Ok G' ->
                  body tt x (focus h G g) = (Ok tt, focus h G' g)) ->
  forall G G',
    for_each l step G = Ok G' ->
    for_each l body tt (focus h G g) = (Ok tt, focus h G' g).
Proof.
  intros Hbody. induction l as [| x l IH]; intros G G' E.
  - cbn in E. inversion E. reflexivity.
  - cbn [for_each] in E |- *.
    destruct (step G x) as [G1 | e] eqn:E1; cbn [bind result_Monad] in E;
      [| discriminate].
    cbn [bind St_Monad]. rewrite (Hbody G x G1 E1). now apply IH.
Qed.

Lemma note_edges_focus (names : list string) (octs : list Z) (octave : Z)
    (h : list DiGraph) (g : RNG) (G G' : DiGraph) (e : Z * string) :
  add_note_edges names octs octave G e = Ok G' ->
  (let '(i, note) := e in
   next_idx <- lift (py_mod (i + 1) (Z.of_nat (List.length names))) ;;
   prev_idx <- lift (py_mod (i - 1) (Z.of_nat (List.length names))) ;;
   next <- lift (getitem names next_idx) ;;
   _ <- DiGraph_add_edge (List.length h) (node_name note octave)
                         (node_name next octave) W_step ;;
   prev <- lift (getitem names prev_idx) ;;
   _ <- DiGraph_add_edge (List.length h) (node_name note octave)
                         (node_name prev octave) W_step ;;
   for_each octs
     (fun _ other_octave =>
        if negb (other_octave =? octave)
        then DiGraph_add_edge (List.length h) (node_name note octave)
                              (node_name note other_octave) W_octave
        else ret tt)
     tt) (focus h G g)
  = (Ok tt, focus h G' g).
Proof.
  destruct e as [i note]. unfold add_note_edges.
  destruct (py_mod (i + 1) _) as [next_idx | e1]; [| discriminate].
  destruct (py_mod (i - 1) _) as [prev_idx | e2]; [| discriminate].
  cbn [bind result_Monad St_Monad lift].
  destruct (getitem names next_idx) as [next | e3]; [| discriminate].
  destruct (getitem names prev_idx) as [prev | e4]; [| discriminate].
  cbn [bind result_Monad ret]. intros E. inversion E. subst G'. clear E.
  unfold DiGraph_add_edge. rewrite !mutate_focus.
  unfold add_octave_edges.
  apply for_each_focus_fold
    with (f := fun G0 other_octave =>
                 if negb (other_octave =? octave)
                 then add_edge G0 (node_name note octave)
                                (node_name note other_octave) W_octave
                 else G0).
  intros G0 other. destruct (negb (other =? octave)); [| reflexivity].
  apply mutate_focus.
Qed.

Lemma St_bind_ok {A B : Type} (c : St RNG A) (k : A -> St RNG B)
    (s s' : store RNG) (a : A) :
  c s = (Ok a, s') -> bind c k s = k a s'.
Proof. intros E. cbn. rewrite E. reflexivity. Qed.

Lemma create_note_graph_focus (names : list string) (octs : list Z)
    (h : list DiGraph) (g : RNG) (G : DiGraph) :
  _create_note_graph names octs = Ok G ->
  create_note_graph names octs {| objects := h; generator := g |}
  = (Ok (List.length h), focus h G g).
Proof.
  unfold _create_note_graph, create_note_graph_from, add_all_edges.
  intros E. unfold create_note_graph.
  erewrite St_bind_ok
    with (a := List.length h) (s' := focus h empty_graph g)
    by reflexivity.
  erewrite St_bind_ok
    with (a := tt) (s' := focus h (add_all_nodes names octs empty_graph) g).
  2:{ unfold add_all_nodes.
      apply for_each_focus_fold
        with (f := fun G0 octave =>
                     fold_left
                       (fun G1 note => add_node G1 (node_name note octave))
                       names G0).
      intros G0 octave.
      apply for_each_focus_fold
        with (f := fun G1 note => add_node G1 (node_name note octave)).
      intros G1 note. apply mutate_focus. }
  erewrite St_bind_ok with (a := tt) (s' := focus h G g); [reflexivity |].
  apply for_each_focus
    with (step := fun G0 octave =>
                    for_each (enumerate names)
                             (add_note_edges names octs octave) G0);
    [| exact E].
  intros G0 octave G1 E1.
  apply for_each_focus with (step := add_note_edges names octs octave);
    [| exact E1].
  intros G2 e G3 E2. now apply note_edges_focus.
Qed.


(** C8: construction is deterministic and idempotent.  Building the graph
    twice, from any store of objects and any state of the random
    generator, gives two different objects with the same node set and the
    same edge weight map: they are structurally equal, and equal to the
    one graph of the names and octaves, whatever the store and the
    generator held.  The second build leaves the first graph as it was,
    neither build draws from the generator, and the objects that existed
    before are untouched. *)
Theorem create_note_graph_twice (c : MusicComposer) (s : store RNG) :
  MusicComposer_init = Ok c ->
  exists G1 G2 s1 s2,
    create_note_graph (notes c) (octaves c) s = (Ok G1, s1)
    /\ create_note_graph (notes c) (octaves c) s1 = (Ok G2, s2)
    /\ G1 <> G2
    /\ nodes (deref s2 G1) = nodes (deref s2 G2)
    /\ edges (deref s2 G1) = edges (deref s2 G2)
    /\ deref s2 G1 = deref s2 G2
    /\ deref s2 G1 = graph c
    /\ deref s1 G1 = deref s2 G1
    /\ generator s1 = generator s
    /\ generator s2 = generator s
    /\ forall r, (r < List.length (objects s))%nat -> deref s2 r = deref s r.
Proof.
  intros Hc. apply init_inv in Hc. subst c.
  destruct s as [h g].
  assert (Hpure : _create_note_graph (notes composer0) (octaves composer0)
                  = Ok (graph composer0)) by (vm_compute; reflexivity).
  exists (List.length h), (List.length (h ++ [graph composer0])),
    (focus h (graph composer0) g),
    (focus (h ++ [graph composer0]) (graph composer0) g).
  split; [now apply create_note_graph_focus |].
  split; [now apply create_note_graph_focus |].
  assert (H1 : deref (focus (h ++ [graph composer0]) (graph composer0) g)
                     (List.length h) = graph composer0).
  { unfold deref, focus. cbn [objects]. rewrite <- app_assoc. cbn [app].
    apply nth_middle. }
  assert (H2 : deref (focus (h ++ [graph composer0]) (graph composer0) g)
                     (List.length (h ++ [graph composer0]))
               = graph composer0) by apply deref_focus.
  rewrite H1, H2, deref_focus.
  split; [rewrite length_app; cbn; lia |].
  repeat (split; [reflexivity |]).
  intros r Hr. unfold deref, focus. cbn [objects] in *.
  rewrite <- app_assoc. now rewrite app_nth1.
Qed.


End StoreFacts.

Lemma create_note_graph_twice_witness :
  exists s2,
    (G1 <- Objects.create_note_graph (notes composer0) (octaves composer0) ;;
     G2 <- Objects.create_note_graph (notes composer0) (octaves composer0) ;;
     ret (G1, G2)) {| Objects.objects := []; Objects.generator := 7%nat |}
    = (Ok (0%nat, 1%nat), s2)
    /\ Objects.deref s2 0%nat = Objects.deref s2 1%nat
    /\ Objects.generator s2 = 7%nat.
Proof.
  destruct (@create_note_graph_twice nat composer0
              {| Objects.objects := []; Objects.generator := 7%nat |} MusicComposer_init_ok)
    as (G1 & G2 & s1 & s2 & E1 & E2 & _ & _ & _ & Heq & _ & _ & _ & Hg & _).
  vm_compute in E1. inversion E1. subst G1 s1.
  vm_compute in E2. inversion E2. subst G2 s2.
  eexists. split; [vm_compute; reflexivity |].
  split; [exact Heq | exact Hg].
Defined.

(** C10: for every note made of one of the 7 pitch classes and an octave
    in {4, 5}, the MIDI number is base_pitch[name] + (octave - 4) * 12,
    with base pitches C 60, D 62, E 64, F 65, G 67, A 69, B 71. *)
Theorem note_to_midi_number_spec (c : MusicComposer) (name : string)
    (octave : Z) :
  MusicComposer_init = Ok c ->
  In name (notes c) ->
  In octave (octaves c) ->
  note_to_midi c = base_pitch
  /\ exists base,
       dict_get base_pitch name = Some base
       /\ note_to_midi_number c (node_name name octave)
          = Ok (base + (octave - 4) * 12).
Proof.
  intros Hc Hn Ho. apply init_inv in Hc. subst c.
  split; [reflexivity |].
  each_octave Ho;
    vm_compute in Hn;
    destruct Hn as [<- | [<- | [<- | [<- | [<- | [<- | [<- | []]]]]]]];
    eexists; split; vm_compute; reflexivity.
Qed.

Lemma note_to_midi_number_spec_witness :
  note_to_midi_number composer0 "G5" = Ok 79.
Proof.
  destruct (@note_to_midi_number_spec composer0 "G" 5 MusicComposer_init_ok)
    as (_ & base & Hb & Hm).
  - vm_compute. tauto.
  - vm_compute. tauto.
  - vm_compute in Hb. inversion Hb. subst base. exact Hm.
Defined.

(* ================================================================== *)
(** * Properties of the walk *)

Lemma getitem_In {A : Type} (l : list A) (i : Z) (x : A) :
  getitem l i = Ok x -> In x l.
Proof.
  unfold getitem.
  destruct (_ || _); [discriminate |].
  destruct (nth_error l _) eqn:E; [| discriminate].
  intros H. inversion H. subst. eapply nth_error_In, E.
Qed.

Lemma getitem_nat {A : Type} (l : list A) (i : nat) :
  (i < List.length l)%nat -> exists x, getitem l (Z.of_nat i) = Ok x.
Proof.
  intros Hi. unfold getitem. cbv zeta.
  destruct (Z.ltb_spec (Z.of_nat i) 0); [lia |].
  destruct (Z.ltb_spec (Z.of_nat i) 0); [lia |].
  destruct (Z.leb_spec (Z.of_nat (List.length l)) (Z.of_nat i)); [lia |].
  cbn [orb]. rewrite Nat2Z.id.
  destruct (nth_error l i) eqn:E; [eexists; reflexivity |].
  apply nth_error_None in E. lia.
Qed.

Lemma midpoint_bounds (lo hi : nat) :
  (lo < hi -> lo <= (lo + hi) / 2 < hi)%nat.
Proof.
  intros Hlt. split.
  - apply Nat.div_le_lower_bound; lia.
  - apply Nat.Div0.div_lt_upper_bound; lia.
Qed.

Lemma bisect_right_bounds (a : list float) (x : float) (lo hi : nat) :
  (lo <= hi)%nat -> (hi <= List.length a)%nat ->
  exists r, bisect_right a x lo hi = Ok r /\ (lo <= r <= hi)%nat.
Proof.
  funelim (bisect_right a x lo hi); intros Hle Hlen.
  all: try match goal with
       | H : (?lo < ?hi)%nat |- _ => pose proof (midpoint_bounds H)
       end.
  - exists lo. split; [reflexivity | lia].
  - match goal with
    | E : nth_error _ _ = None |- _ => apply nth_error_None in E; lia
    end.
  - destruct H as (r & -> & Hr); [lia | lia |]. exists r. split; [reflexivity | lia].
  - destruct H as (r & -> & Hr); [lia | lia |]. exists r. split; [reflexivity | lia].
Qed.

Lemma getitem_last (l : list float) (x : float) :
  getitem (l ++ [x]) (-1) = Ok x.
Proof.
  unfold getitem. cbv zeta. rewrite length_app. cbn [List.length].
  change (-1 <? 0) with true. cbv iota.
  destruct (Z.ltb_spec (-1 + Z.of_nat (List.length l + 1)) 0); [lia |].
  destruct (Z.leb_spec (Z.of_nat (List.length l + 1))
                       (-1 + Z.of_nat (List.length l + 1))); [lia |].
  cbn [orb].
  replace (Z.to_nat (-1 + Z.of_nat (List.length l + 1))) with (List.length l)
    by lia.
  rewrite nth_error_app2, Nat.sub_diag by lia. reflexivity.
Qed.

Lemma valid_mood_profile (mood : string) :
  In mood valid_moods ->
  exists profile,
    dict_get mood_weights mood = Some profile
    /\ accumulate (pattern_distribution (weight_mul profile)) = cum0
    /\ (0 <? sum (map (fun w => w * weight_mul profile) step_pattern))%float
       = true.
Proof.
  intros Hm. vm_compute in Hm.
  repeat (destruct Hm as [<- | Hm]); try contradiction;
    eexists; (split; [vm_compute; reflexivity |]);
    split; vm_compute; reflexivity.
Qed.

Lemma invalid_mood_profile (mood : string) :
  ~ In mood valid_moods -> dict_get mood_weights mood = None.
Proof.
  intros Hm. unfold mood_weights, dict_get.
  repeat match goal with
         | |- context [String.eqb mood ?s] =>
             destruct (String.eqb_spec mood s) as [-> | _];
             [exfalso; apply Hm; vm_compute; tauto |]
         end.
  reflexivity.
Qed.

Lemma adjusted_weights_profile (G : DiGraph) (current_note mood : string)
    (nbrs : list string) (profile : mood_profile) :
  dict_get mood_weights mood = Some profile ->
  adjusted_weights G current_note mood nbrs
  = comprehension (fun next_note =>
        w <- edge_weight G current_note next_note ;;
        ret (w * weight_mul profile)%float)
      nbrs.
Proof.
  intros Hm. unfold adjusted_weights.
  induction nbrs as [| n nbrs IH]; [reflexivity |].
  cbn [comprehension]. rewrite IH. unfold dict_item. rewrite Hm.
  destruct (edge_weight G current_note n); reflexivity.
Qed.

Lemma transition_table (current_note mood : string)
    (profile : mood_profile) :
  In current_note (nodes (graph composer0)) ->
  dict_get mood_weights mood = Some profile ->
  exists a b c,
    neighbors (graph composer0) current_note = Ok [a; b; c]
    /\ incl [a; b; c] (nodes (graph composer0))
    /\ transition_weights (graph composer0) current_note mood [a; b; c]
       = Ok (pattern_distribution (weight_mul profile)).
Proof.
  intros Hn Hm. vm_compute in Hn.
  repeat (destruct Hn as [<- | Hn]); try contradiction;
    do 3 eexists;
    (split; [vm_compute; reflexivity |]);
    (split; [intros x Hx; vm_compute in Hx |- *; tauto |]);
    unfold transition_weights;
    rewrite adjusted_weights_profile with (profile := profile) by exact Hm;
    reflexivity.
Qed.

Lemma leb_zero_not_pos (s : float) :
  (s <=? 0)%float = true -> (0 <? s)%float = false.
Proof.
  rewrite FloatAxioms.leb_spec, FloatAxioms.ltb_spec.
  change (Prim2SF 0%float) with (S754_zero false).
  unfold SFleb, SFltb.
  destruct (Prim2SF s) as [sg | sg | | sg m e]; try destruct sg; cbn;
    congruence.
Qed.

Lemma dict_get_In {V : Type} (d : dict V) (k : string) (v : V) :
  NoDup (dict_keys d) -> In (k, v) d -> dict_get d k = Some v.
Proof.
  induction d as [| [k' v'] d IH]; intros Hnd Hin; [contradiction |].
  cbn in Hnd. inversion Hnd as [| ? ? Hnot Hnd']. subst.
  cbn [dict_get]. destruct Hin as [E | Hin].
  - inversion E. subst. now rewrite String.eqb_refl.
  - destruct (String.eqb_spec k k') as [-> | _]; [| now apply IH].
    exfalso. apply Hnot. unfold dict_keys.
    change k' with (fst (k', v)). now apply in_map.
Qed.

Lemma adjusted_weights_out (G : DiGraph) (current_note mood : string)
    (out : dict float) (profile : mood_profile) :
  dict_get (_succ G) current_note = Some out ->
  NoDup (dict_keys out) ->
  dict_get mood_weights mood = Some profile ->
  adjusted_weights G current_note mood (dict_keys out)
  = Ok (map (fun e => (snd e * weight_mul profile)%float) out).
Proof.
  intros Hout Hnd Hm.
  rewrite adjusted_weights_profile with (profile := profile) by exact Hm.
  assert (Hsub : forall l, incl l out ->
            comprehension (fun next_note =>
                w <- edge_weight G current_note next_note ;;
                ret (w * weight_mul profile)%float) (dict_keys l)
            = Ok (map (fun e => (snd e * weight_mul profile)%float) l)).
  { induction l as [| [k v] l IH]; intros Hl; [reflexivity |].
    assert (He : edge_weight G current_note k = Ok v).
    { unfold edge_weight, dict_item. rewrite Hout. cbn [bind result_Monad].
      now rewrite (@dict_get_In _ out k v Hnd) by (apply Hl; now left). }
    unfold dict_keys in *. cbn [map comprehension fst snd].
    rewrite He, IH by (intros x Hx; apply Hl; now right). reflexivity. }
  apply Hsub, incl_refl.
Qed.

Lemma first_edge (current_note : string) :
  In current_note (nodes (graph composer0)) ->
  exists a rest wa,
    neighbors (graph composer0) current_note = Ok (a :: rest)
    /\ edge_weight (graph composer0) current_note a = Ok wa.
Proof.
  intros Hn. vm_compute in Hn.
  repeat (destruct Hn as [<- | Hn]); try contradiction;
    do 3 eexists; split; vm_compute; reflexivity.
Qed.

Lemma start_notes_nodes :
  incl (start_notes composer0) (nodes (graph composer0)).
Proof. intros x Hx. vm_compute in Hx |- *. tauto. Qed.

Lemma pattern_close (m1 m2 : string) :
  In m1 valid_moods ->
  In m2 valid_moods ->
  exists p1 p2,
    dict_get mood_weights m1 = Some p1
    /\ dict_get mood_weights m2 = Some p2
    /\ Forall2 close (pattern_distribution (weight_mul p1))
                     (pattern_distribution (weight_mul p2))
    /\ accumulate (pattern_distribution (weight_mul p1))
       = accumulate (pattern_distribution (weight_mul p2)).
Proof.
  intros H1 H2. vm_compute in H1, H2.
  repeat (destruct H1 as [<- | H1]); try contradiction;
    repeat (destruct H2 as [<- | H2]); try contradiction;
    do 2 eexists;
    (split; [vm_compute; reflexivity |]);
    (split; [vm_compute; reflexivity |]);
    (split; [vm_compute; repeat constructor | vm_compute; reflexivity]).
Qed.

(** Under each mood the weights handed to the sampler are strictly between
    0 and 1 and accumulate to exactly 1. *)
Lemma pattern_distribution_total (mood : string) (profile : mood_profile) :
  dict_get mood_weights mood = Some profile ->
  Forall (fun p => (0 <? p)%float = true /\ (p <? 1)%float = true)
         (pattern_distribution (weight_mul profile))
  /\ getitem (accumulate (pattern_distribution (weight_mul profile))) (-1)
     = Ok 1%float.
Proof.
  unfold mood_weights, dict_get.
  repeat (destruct (String.eqb mood _);
          [intros E; inversion E; subst; vm_compute;
           split; [repeat constructor | reflexivity] |]).
  discriminate.
Qed.

Create HintDb frame.

Section WalkProofs.

Context {RNG : Type} `{RandomSource RNG}.

Lemma bind_ok {A B : Type} (c : M RNG A) (k : A -> M RNG B)
    (w w' : world RNG) (a : A) :
  c w = (Ok a, w') -> bind c k w = k a w'.
Proof. intros E. cbn. rewrite E. reflexivity. Qed.

Lemma bind_raise {A B : Type} (c : M RNG A) (k : A -> M RNG B)
    (w w' : world RNG) (e : exception) :
  c w = (Raise e, w') -> bind c k w = (Raise e, w').
Proof. intros E. cbn. rewrite E. reflexivity. Qed.

Lemma random_random_eq (w : world RNG) :
  random_random w = (Ok (fst (random (rng w))), after_random w).
Proof.
  unfold random_random, after_random. destruct (random (rng w)). reflexivity.
Qed.

Lemma random_choices_cum {A : Type} (population : list A)
    (ws1 ws2 : list float) :
  accumulate ws1 = accumulate ws2 ->
  random_choices population ws1 = random_choices population ws2.
Proof. intros E. unfold random_choices. rewrite E. reflexivity. Qed.

Lemma random_choices_cum0 (a b c : string) (ws : list float)
    (w : world RNG) :
  accumulate ws = cum0 ->
  exists x, In x [a; b; c]
    /\ random_choices [a; b; c] ws w = (Ok [x], after_random w).
Proof.
  intros E. unfold random_choices. rewrite E.
  change (negb (List.length cum0 =? List.length [a; b; c])%nat) with false.
  cbv iota zeta.
  erewrite bind_ok by (unfold lift; vm_compute; reflexivity).
  change (1 + 0 <=? 0)%float with false. 
  change (negb (isfinite (1 + 0)%float)) with false. cbv iota.
  erewrite bind_ok by apply random_random_eq.
  destruct (@bisect_right_bounds cum0 (fst (random (rng w)) * (1 + 0))%float
              0 (List.length [a; b; c] - 1)) as (i & Hi & Hb).
  { lia. } { cbn. lia. }
  erewrite bind_ok by (unfold lift; rewrite Hi; reflexivity).
  cbn in Hb.
  destruct (@getitem_nat _ [a; b; c] i) as (x & Hx); [cbn; lia |].
  erewrite bind_ok by (unfold lift; rewrite Hx; reflexivity).
  exists x. split; [eapply getitem_In, Hx | reflexivity].
Qed.

Lemma choose_next_spec (current_note : string) (g : RNG) :
  In current_note (nodes (graph composer0)) ->
  exists next_note,
    In next_note (nodes (graph composer0))
    /\ forall mood, In mood valid_moods ->
         choose_next mood current_note {| self := composer0; rng := g |}
         = (Ok (Some next_note),
            after_random {| self := composer0; rng := g |}).
Proof.
  intros Hn.
  destruct (@valid_mood_profile "happy") as (p0 & Hp0 & Hc0 & _);
    [vm_compute; tauto |].
  destruct (@transition_table current_note _ p0 Hn Hp0) as (a & b & c & Hnb & Hin & _).
  destruct (@random_choices_cum0 a b c _ {| self := composer0; rng := g |} Hc0)
    as (x & Hx & Hch).
  exists x. split; [apply Hin, Hx |].
  intros mood Hm.
  destruct (@valid_mood_profile mood Hm) as (p & Hp & Hc & _).
  destruct (@transition_table current_note _ p Hn Hp) as (a' & b' & c' & Hnb' & _ & Htw).
  rewrite Hnb in Hnb'. inversion Hnb'. subst a' b' c'.
  unfold choose_next.
  erewrite bind_ok by (unfold read; cbn [self]; rewrite Hnb; reflexivity).
  cbv beta iota.
  erewrite bind_ok by (unfold read; cbn [self]; rewrite Htw; reflexivity).
  rewrite random_choices_cum with (ws2 := pattern_distribution (weight_mul p0))
    by congruence.
  erewrite bind_ok by exact Hch.
  reflexivity.
Qed.

Lemma walk_spec (iterations : nat) :
  forall (current_note : string) (melody : list string)
         (weights : list float) (g : RNG),
    In current_note (nodes (graph composer0)) ->
    exists melody' weights' g',
      List.length melody' = iterations
      /\ List.length weights' = iterations
      /\ Forall drawn weights'
      /\ incl melody' (nodes (graph composer0))
      /\ forall mood, In mood valid_moods ->
           walk iterations mood current_note melody weights
                {| self := composer0; rng := g |}
           = (Ok (melody ++ melody', weights ++ weights'),
              {| self := composer0; rng := g' |}).
Proof.
  induction iterations as [| n IH]; intros current_note melody weights g Hn.
  - exists [], [], g. repeat split; auto using incl_nil_l.
    intros mood _. cbn. now rewrite !app_nil_r.
  - destruct (@choose_next_spec current_note g Hn) as (next_note & Hnext & Hstep).
    set (g1 := snd (random g)).
    set (x := fst (random g1)).
    destruct (IH next_note (melody ++ [current_note]) (weights ++ [x])
                 (snd (random g1)) Hnext)
      as (melody' & weights' & g' & Hl1 & Hl2 & Hd & Hi & Hw).
    exists (current_note :: melody'), (x :: weights'), g'.
    split; [cbn; lia |]. split; [cbn; lia |].
    split; [constructor; [now exists g1 | exact Hd] |].
    split; [apply incl_cons; assumption |].
    intros mood Hm. cbn [walk].
    erewrite bind_ok by (apply Hstep, Hm).
    cbv beta iota.
    erewrite bind_ok by apply random_random_eq.
    unfold after_random. cbn [self rng]. fold g1. fold x.
    rewrite (Hw mood Hm), <- !app_assoc. reflexivity.
Qed.

(** *** The start note *)

Lemma random_randbelow_eq (n : nat) (w : world RNG) :
  random_randbelow n w
  = (Ok (fst (randbelow n (rng w))), after_randbelow n w).
Proof.
  unfold random_randbelow, after_randbelow.
  destruct (randbelow n (rng w)). reflexivity.
Qed.

Lemma random_choice_inv {A : Type} (seq : list A) (w w' : world RNG)
    (r : result A) :
  random_choice seq w = (r, w') ->
  match r with
  | Ok x => In x seq /\ w' = after_randbelow (List.length seq) w
  | Raise _ => self w' = self w
  end.
Proof.
  destruct seq as [| a seq].
  - cbn. intros E. inversion E. reflexivity.
  - unfold random_choice.
    erewrite bind_ok by apply random_randbelow_eq.
    unfold lift. intros E. inversion E. subst.
    destruct (getitem _ _) eqn:Eg; [| reflexivity].
    split; [eapply getitem_In, Eg | reflexivity].
Qed.

Lemma random_choice_ok {L : @RandomSourceLaws RNG _} {A : Type} (seq : list A)
    (w : world RNG) :
  seq <> [] ->
  exists x, In x seq
    /\ random_choice seq w = (Ok x, after_randbelow (List.length seq) w).
Proof.
  intros Hne. destruct seq as [| a seq]; [contradiction |].
  destruct (@getitem_nat _ (a :: seq)
              (fst (randbelow (List.length (a :: seq)) (rng w))))
    as (x & Hx).
  { apply randbelow_lt. cbn. lia. }
  exists x. split; [eapply getitem_In, Hx |].
  unfold random_choice.
  erewrite bind_ok by apply random_randbelow_eq.
  unfold lift. rewrite Hx. reflexivity.
Qed.

Lemma generate_melody_unfold (length : Z) (mood : string) (g : RNG) :
  generate_melody length mood {| self := composer0; rng := g |}
  = bind (random_choice (start_notes composer0))
         (fun current_note =>
            walk (Z.to_nat length) mood current_note [] [])
         {| self := composer0; rng := g |}.
Proof. reflexivity. Qed.

(** *** An unknown mood *)

Lemma choose_next_unknown_mood (mood current_note : string) (g : RNG) :
  In current_note (nodes (graph composer0)) ->
  dict_get mood_weights mood = None ->
  choose_next mood current_note {| self := composer0; rng := g |}
  = (Raise (KeyError mood), {| self := composer0; rng := g |}).
Proof.
  intros Hn Hm.
  destruct (first_edge Hn) as (a & rest & wa & Hnb & Hw).
  unfold choose_next.
  erewrite bind_ok by (unfold read; cbn [self]; rewrite Hnb; reflexivity).
  cbv beta iota.
  erewrite bind_raise; [reflexivity |].
  unfold read, transition_weights, adjusted_weights.
  cbn [self comprehension]. rewrite Hw. unfold dict_item. rewrite Hm.
  reflexivity.
Qed.

(** *** The composer is only read *)

Lemma preserves_ret {A : Type} (a : A) :
  preserves_self (RNG := RNG) (ret a).
Proof. intros w. reflexivity. Qed.

Lemma preserves_lift {A : Type} (r : result A) :
  preserves_self (RNG := RNG) (lift r).
Proof. intros w. reflexivity. Qed.

Lemma preserves_read {A : Type} (f : MusicComposer -> result A) :
  preserves_self (RNG := RNG) (read f).
Proof. intros w. reflexivity. Qed.

Lemma preserves_random : preserves_self random_random.
Proof. intros w. now rewrite random_random_eq. Qed.

Lemma preserves_randbelow (n : nat) : preserves_self (random_randbelow n).
Proof. intros w. now rewrite random_randbelow_eq. Qed.

Lemma preserves_bind {A B : Type} (c : M RNG A) (k : A -> M RNG B) :
  preserves_self c -> (forall a, preserves_self (k a)) ->
  preserves_self (bind c k).
Proof.
  intros Hc Hk w. specialize (Hc w). cbn.
  destruct (c w) as [[a | e] w']; cbn in Hc |- *; [| exact Hc].
  now rewrite Hk.
Qed.

#[local] Hint Resolve preserves_ret preserves_lift preserves_read preserves_random
  preserves_randbelow : frame.

Ltac frame :=
  repeat first
    [ apply preserves_bind; [| intros ?]
    | solve [auto with frame]
    | match goal with
      | |- preserves_self (if ?b then _ else _) => destruct b
      | |- preserves_self (match ?x with _ => _ end) => destruct x
      end ].

Lemma preserves_random_choice {A : Type} (seq : list A) :
  preserves_self (random_choice seq).
Proof. unfold random_choice. frame. Qed.

Lemma preserves_random_choices {A : Type} (population : list A)
    (weights : list float) :
  preserves_self (random_choices population weights).
Proof. unfold random_choices. cbv zeta. frame. Qed.

Lemma preserves_choose_next (mood current_note : string) :
  preserves_self (choose_next mood current_note).
Proof.
  unfold choose_next.
  apply preserves_bind; [auto with frame | intros nbrs].
  destruct nbrs; [auto with frame |].
  apply preserves_bind; [auto with frame | intros ws].
  apply preserves_bind; [apply preserves_random_choices | intros chosen].
  frame.
Qed.

Lemma preserves_walk (iterations : nat) :
  forall (mood current_note : string) (melody : list string)
         (weights : list float),
    preserves_self (walk iterations mood current_note melody weights).
Proof.
  induction iterations as [| n IH]; intros mood current_note melody weights;
    cbn [walk]; [auto with frame |].
  apply preserves_bind; [apply preserves_choose_next | intros [next |]].
  - apply preserves_bind; [auto with frame | intros x]. apply IH.
  - auto with frame.
Qed.

Lemma preserves_generate_melody (length : Z) (mood : string) :
  preserves_self (generate_melody length mood).
Proof.
  unfold generate_melody.
  apply preserves_bind; [auto with frame | intros candidates].
  apply preserves_bind; [apply preserves_random_choice | intros note].
  apply preserves_walk.
Qed.

(** *** The properties of [generate_melody] *)

Lemma start_notes_nonempty : start_notes composer0 <> [].
Proof. vm_compute. discriminate. Qed.

Lemma start_notes_length : List.length (start_notes composer0) = 14%nat.
Proof. reflexivity. Qed.

(** C1: for every length > 0 and every mood among happy, sad, energetic
    and calm, [generate_melody] returns a melody and an intensities
    sequence of equal length, both of length at most [length], and every
    intensity lies in [0, 1). *)
Theorem generate_melody_lengths {L : @RandomSourceLaws RNG _}
    (c : MusicComposer) (length : Z) (mood : string) (g : RNG) :
  MusicComposer_init = Ok c ->
  0 < length ->
  In mood valid_moods ->
  exists melody intensities w',
    generate_melody length mood {| self := c; rng := g |}
    = (Ok (melody, intensities), w')
    /\ List.length melody = List.length intensities
    /\ Z.of_nat (List.length melody) <= length
    /\ Forall in_unit_interval intensities.
Proof.
  intros Hc Hlen Hm. apply init_inv in Hc. subst c.
  destruct (@random_choice_ok _ _ (start_notes composer0)
              {| self := composer0; rng := g |} start_notes_nonempty)
    as (start & Hstart & Hch).
  destruct (@walk_spec (Z.to_nat length) start [] []
              (snd (randbelow 14 g)) (start_notes_nodes Hstart))
    as (melody & weights & g' & Hl1 & Hl2 & Hd & _ & Hw).
  exists melody, weights, {| self := composer0; rng := g' |}.
  rewrite generate_melody_unfold.
  erewrite bind_ok by exact Hch.
  split; [apply (Hw mood Hm) |].
  split; [congruence |].
  split; [lia |].
  eapply Forall_impl; [| exact Hd].
  intros x (g0 & ->). apply random_unit.
Qed.

(** The walk never stops early on this graph: both sequences have
    exactly [length] elements, and the melody stays in the graph. *)
Lemma generate_melody_exact_length {L : @RandomSourceLaws RNG _}
    (length : Z) (mood : string) (g : RNG) :
  In mood valid_moods ->
  exists melody intensities w',
    generate_melody length mood {| self := composer0; rng := g |}
    = (Ok (melody, intensities), w')
    /\ List.length melody = Z.to_nat length
    /\ List.length intensities = Z.to_nat length
    /\ incl melody (nodes (graph composer0)).
Proof.
  intros Hm.
  destruct (@random_choice_ok _ _ (start_notes composer0)
              {| self := composer0; rng := g |} start_notes_nonempty)
    as (start & Hstart & Hch).
  destruct (@walk_spec (Z.to_nat length) start [] []
              (snd (randbelow 14 g)) (start_notes_nodes Hstart))
    as (melody & weights & g' & Hl1 & Hl2 & _ & Hi & Hw).
  exists melody, weights, {| self := composer0; rng := g' |}.
  rewrite generate_melody_unfold.
  erewrite bind_ok by exact Hch.
  split; [apply (Hw mood Hm) | auto].
Qed.

(** C2, as the code has it: [generate_melody] does not check [length];
    for every length <= 0 and every mood the loop body never runs, and
    the call returns an empty melody and an empty intensities sequence
    (after the draw of the start note) instead of failing. *)
Theorem generate_melody_nonpositive {L : @RandomSourceLaws RNG _}
    (c : MusicComposer) (length : Z) (mood : string) (g : RNG) :
  MusicComposer_init = Ok c ->
  length <= 0 ->
  generate_melody length mood {| self := c; rng := g |}
  = (Ok ([], []), {| self := c; rng := snd (randbelow 14 g) |}).
Proof.
  intros Hc Hlen. apply init_inv in Hc. subst c.
  destruct (@random_choice_ok _ _ (start_notes composer0)
              {| self := composer0; rng := g |} start_notes_nonempty)
    as (start & _ & Hch).
  rewrite generate_melody_unfold.
  erewrite bind_ok by exact Hch.
  replace (Z.to_nat length) with 0%nat by lia. reflexivity.
Qed.

(** C3, as the code has it: [generate_melody] does not check [mood]; for
    every mood that is not one of happy, sad, energetic and calm and every
    length > 0 it fails with the [KeyError] of the lookup
    [mood_weights[mood]] in the first iteration, after the start note has
    been drawn, and returns neither a melody nor intensities. *)
Theorem generate_melody_unknown_mood {L : @RandomSourceLaws RNG _}
    (c : MusicComposer) (length : Z) (mood : string) (g : RNG) :
  MusicComposer_init = Ok c ->
  0 < length ->
  ~ In mood valid_moods ->
  generate_melody length mood {| self := c; rng := g |}
  = (Raise (KeyError mood), {| self := c; rng := snd (randbelow 14 g) |}).
Proof.
  intros Hc Hlen Hm. apply init_inv in Hc. subst c.
  destruct (@random_choice_ok _ _ (start_notes composer0)
              {| self := composer0; rng := g |} start_notes_nonempty)
    as (start & Hstart & Hch).
  rewrite generate_melody_unfold.
  erewrite bind_ok by exact Hch.
  destruct (Z.to_nat length) as [| n] eqn:En; [lia |].
  cbn [walk].
  erewrite bind_raise; [reflexivity |].
  apply choose_next_unknown_mood;
    [apply start_notes_nodes, Hstart | apply invalid_mood_profile, Hm].
Qed.

(** C5: at a walk step from a note with outgoing edges [out], every
    outgoing weight is multiplied by the mood's multiplier; if the sum of
    the adjusted weights is strictly positive each is divided by that
    sum, and if the sum is zero or negative the weights are uniform over
    the neighbours; the next note is drawn with these weights. *)
Theorem walk_step_distribution (w : world RNG) (current_note mood : string)
    (out : dict float) (profile : mood_profile) :
  dict_get (_succ (graph (self w))) current_note = Some out ->
  NoDup (dict_keys out) ->
  out <> [] ->
  dict_get mood_weights mood = Some profile ->
  let adjusted := map (fun e => (snd e * weight_mul profile)%float) out in
  adjusted_weights (graph (self w)) current_note mood (dict_keys out)
  = Ok adjusted
  /\ transition_weights (graph (self w)) current_note mood (dict_keys out)
     = Ok (spec_distribution adjusted)
  /\ ((0 <? sum adjusted)%float = true ->
      spec_distribution adjusted
      = map (fun a => (a / sum adjusted)%float) adjusted)
  /\ ((sum adjusted <=? 0)%float = true ->
      spec_distribution adjusted
      = repeat (1 / float_of_nat (List.length out))%float
               (List.length out))
  /\ choose_next mood current_note w
     = bind (random_choices (dict_keys out) (spec_distribution adjusted))
            (fun chosen =>
               next_note <- lift (getitem chosen 0) ;;
               ret (Some next_note))
            w.
Proof.
  intros Hout Hnd Hne Hm adjusted.
  pose proof (@adjusted_weights_out (graph (self w)) current_note mood out
                profile Hout Hnd Hm) as Hadj.
  fold adjusted in Hadj.
  assert (Htw : transition_weights (graph (self w)) current_note mood
                  (dict_keys out) = Ok (spec_distribution adjusted)).
  { unfold transition_weights. rewrite Hadj. cbn [bind result_Monad ret].
    unfold normalise, spec_distribution, uniform, adjusted, dict_keys.
    now rewrite !length_map. }
  split; [exact Hadj |]. split; [exact Htw |].
  split; [| split].
  - intros Hpos. unfold spec_distribution. now rewrite Hpos.
  - intros Hneg. unfold spec_distribution, uniform.
    rewrite (@leb_zero_not_pos _ Hneg). unfold adjusted.
    now rewrite length_map.
  - unfold choose_next.
    erewrite bind_ok
      by (unfold read, neighbors; rewrite Hout; reflexivity).
    destruct out as [| [k v] out']; [contradiction |].
    cbn [dict_keys map fst]. cbv beta iota.
    erewrite bind_ok by (unfold read; rewrite <- Htw; reflexivity).
    reflexivity.
Qed.

(** C6, as the code has it: at every node and for any two of the four
    moods the normalised weights agree up to one unit in the last place
    (2^-55) and have the same cumulative weights, which is all the
    sampler reads; so from the same random source [generate_melody]
    returns the same melody and intensities under both moods. *)
Theorem mood_independent_walk (c : MusicComposer) (m1 m2 : string) :
  MusicComposer_init = Ok c ->
  In m1 valid_moods ->
  In m2 valid_moods ->
  (forall n, In n (nodes (graph c)) ->
     exists nbrs ws1 ws2,
       neighbors (graph c) n = Ok nbrs
       /\ transition_weights (graph c) n m1 nbrs = Ok ws1
       /\ transition_weights (graph c) n m2 nbrs = Ok ws2
       /\ Forall2 close ws1 ws2
       /\ accumulate ws1 = accumulate ws2)
  /\ (forall (length : Z) (g : RNG),
        generate_melody length m1 {| self := c; rng := g |}
        = generate_melody length m2 {| self := c; rng := g |}).
Proof.
  intros Hc H1 H2. apply init_inv in Hc. subst c. split.
  - intros n Hn.
    destruct (pattern_close H1 H2) as (p1 & p2 & Hp1 & Hp2 & Hcl & Hacc).
    destruct (@transition_table n m1 p1 Hn Hp1)
      as (a & b & c & Hnb & _ & Ht1).
    destruct (@transition_table n m2 p2 Hn Hp2)
      as (a' & b' & c' & Hnb' & _ & Ht2).
    rewrite Hnb in Hnb'. inversion Hnb'. subst a' b' c'.
    exists [a; b; c]. eauto 10.
  - intros length g. rewrite !generate_melody_unfold.
    destruct (random_choice (start_notes composer0)
                {| self := composer0; rng := g |}) as [[start | e] w1] eqn:E;
      [| erewrite bind_raise by exact E;
         erewrite bind_raise by exact E; reflexivity].
    pose proof (random_choice_inv _ _ E) as (Hstart & ->).
    erewrite bind_ok by exact E. symmetry.
    erewrite bind_ok by exact E. symmetry.
    destruct (@walk_spec (Z.to_nat length) start [] []
                (snd (randbelow (List.length (start_notes composer0)) g))
                (start_notes_nodes Hstart))
      as (melody & weights & g' & _ & _ & _ & _ & Hw).
    unfold after_randbelow in *. cbn [self rng] in *.
    now rewrite (Hw m1 H1), (Hw m2 H2).
Qed.

(** C9: a call of [generate_melody], whatever its length and mood and
    whether it returns or raises, leaves the composer and so the note
    graph (node set and edge weight map) as they were. *)
Theorem generate_melody_frame (length : Z) (mood : string)
    (w : world RNG) :
  let w' := snd (generate_melody length mood w) in
  self w' = self w
  /\ graph (self w') = graph (self w)
  /\ nodes (graph (self w')) = nodes (graph (self w))
  /\ edges (graph (self w')) = edges (graph (self w)).
Proof.
  cbv zeta. rewrite (preserves_generate_melody length mood w). auto.
Qed.

End WalkProofs.

(* ================================================================== *)
(** * The walk on a concrete random source *)

#[export] Instance cycle_laws : RandomSourceLaws nat.
Proof.
  split.
  - intros n g Hn. cbn. apply Nat.mod_upper_bound. lia.
  - intros g. cbn [random Cycle.source fst].
    pose proof (Nat.mod_upper_bound g 5 ltac:(lia)) as Hlt.
    destruct (g mod 5)%nat as [| [| [| [| [| k]]]]]; try lia;
      split; reflexivity.
Qed.

Lemma valid_moods_keys : valid_moods = dict_keys mood_weights.
Proof. reflexivity. Qed.

Lemma compensated_sum_agrees (mood : string) (profile : mood_profile) :
  dict_get mood_weights mood = Some profile ->
  let adjusted := map (fun w => (w * weight_mul profile)%float) step_pattern in
  compensated_sum adjusted = sum adjusted.
Proof.
  unfold mood_weights, dict_get.
  repeat (destruct (String.eqb mood _);
          [intros E; inversion E; subst; vm_compute; reflexivity |]).
  discriminate.
Qed.

Lemma generate_melody_lengths_witness :
  0 < 4 /\ In "happy" valid_moods
  /\ exists melody intensities w',
       generate_melody 4 "happy" (world0 3)
       = (Ok (melody, intensities), w')
       /\ List.length melody = List.length intensities
       /\ Z.of_nat (List.length melody) <= 4
       /\ Forall in_unit_interval intensities.
Proof.
  split; [lia |]. split; [vm_compute; tauto |].
  apply (@generate_melody_lengths nat _ _ composer0 4 "happy" 3%nat
           MusicComposer_init_ok).
  - lia.
  - vm_compute. tauto.
Defined.

Example generate_melody_run :
  fst (generate_melody 4 "happy" (world0 3))
  = Ok (["D5"; "D4"; "C4"; "C5"], [0; 0.25; 0.95; 0.5]%float).
Proof. vm_compute. reflexivity. Qed.

(** C2 fails on the code: with length 0 or -3 and mood happy the call
    returns an empty melody and empty intensities; it raises nothing. *)
Lemma generate_melody_nonpositive_counterexample :
  fst (generate_melody 0 "happy" (world0 0)) = Ok ([], [])
  /\ fst (generate_melody (-3) "happy" (world0 0)) = Ok ([], [])
  /\ forall e, fst (generate_melody 0 "happy" (world0 0)) <> Raise e.
Proof.
  split; [vm_compute; reflexivity |].
  split; [vm_compute; reflexivity |].
  intros e. vm_compute. discriminate.
Qed.

Lemma generate_melody_nonpositive_witness :
  -2 <= 0
  /\ generate_melody (-2) "calm" (world0 5)
     = (Ok ([], []), world0 6).
Proof.
  split; [lia |].
  refine (@generate_melody_nonpositive nat _ _ composer0 (-2) "calm" 5%nat
            MusicComposer_init_ok _).
  lia.
Defined.

Lemma angry_not_valid : ~ In "angry" valid_moods.
Proof.
  intros H. vm_compute in H.
  repeat (destruct H as [H | H]; [discriminate |]). exact H.
Qed.

(** C3 fails on the code as stated: with mood angry the call raises
    KeyError, not InvalidArgumentError, and only after it has advanced the
    generator by the draw of the start note. *)
Lemma generate_melody_unknown_mood_counterexample :
  fst (generate_melody 3 "angry" (world0 5)) = Raise (KeyError "angry")
  /\ fst (generate_melody 3 "angry" (world0 5)) <> Raise InvalidArgumentError
  /\ snd (generate_melody 3 "angry" (world0 5)) = world0 6.
Proof.
  split; [vm_compute; reflexivity |].
  split; [vm_compute; discriminate | vm_compute; reflexivity].
Qed.

Lemma generate_melody_unknown_mood_witness :
  0 < 3 /\ ~ In "angry" valid_moods
  /\ generate_melody 3 "angry" (world0 5)
     = (Raise (KeyError "angry"), world0 6).
Proof.
  split; [lia |]. split; [exact angry_not_valid |].
  refine (@generate_melody_unknown_mood nat _ _ composer0 3 "angry" 5%nat
            MusicComposer_init_ok _ angry_not_valid).
  lia.
Defined.

Lemma c4_out_nodup : NoDup (dict_keys [("D4", W_step); ("B4", W_step);
                                       ("C5", W_octave)]).
Proof.
  repeat constructor; cbn; intros H;
    repeat (destruct H as [H | H]; [discriminate |]); exact H.
Qed.

Lemma walk_step_distribution_witness :
  transition_weights (graph composer0) "C4" "happy" ["D4"; "B4"; "C5"]
  = Ok (spec_distribution [0.84; 0.84; 0.36]%float)
  /\ spec_distribution [0.84; 0.84; 0.36]%float
     = [0.84 / 2.04; 0.84 / 2.04; 0.36 / 2.04]%float.
Proof.
  destruct (@walk_step_distribution nat _ (world0 0) "C4" "happy"
              [("D4", W_step); ("B4", W_step); ("C5", W_octave)]
              {| weight_mul := 1.2; duration_pref := 0.25 |})
    as (_ & Htw & Hpos & _).
  - reflexivity.
  - exact c4_out_nodup.
  - discriminate.
  - reflexivity.
  - split; [exact Htw |]. apply Hpos. reflexivity.
Defined.

(** C6 fails on the code as stated: at C4 the normalised weights under
    happy and under sad differ in their last entry
    (0.1764705882352941 against 0.17647058823529413). *)
Lemma mood_distribution_counterexample :
  transition_weights (graph composer0) "C4" "happy" ["D4"; "B4"; "C5"]
  <> transition_weights (graph composer0) "C4" "sad" ["D4"; "B4"; "C5"].
Proof.
  intros E.
  apply (f_equal (fun r => match r with
                           | Ok [_; _; x] => (x <? 0.17647058823529413)%float
                           | _ => false
                           end)) in E.
  vm_compute in E. discriminate.
Qed.

Lemma mood_independent_walk_witness :
  In "happy" valid_moods /\ In "sad" valid_moods
  /\ generate_melody 5 "happy" (world0 2) = generate_melody 5 "sad" (world0 2).
Proof.
  destruct (@mood_independent_walk nat _ composer0 "happy" "sad"
              MusicComposer_init_ok) as (_ & Hsame).
  - vm_compute. tauto.
  - vm_compute. tauto.
  - split; [vm_compute; tauto |]. split; [vm_compute; tauto |].
    apply Hsame.
Defined.

(* ================================================================== *)
(** * Further properties of the program *)

(* ------------------------------------------------------------------ *)
(** * More on [note_to_midi_number] *)

(** X1: on a note of ASCII characters [note_to_midi_number] raises
    IndexError when the note is shorter than two characters, ValueError
    when its second character is not a decimal digit (whatever the first
    one is), and KeyError of the first character when that is not a key of
    [note_to_midi] and the second is a digit. *)
Theorem note_to_midi_number_errors (c : MusicComposer) (note : string) :
  ascii_only note = true ->
  ((String.length note < 2)%nat ->
   note_to_midi_number c note = Raise IndexError)
  /\ (forall a b rest,
        note = String a (String b rest) -> is_digit b = false ->
        note_to_midi_number c note = Raise ValueError)
  /\ (forall a b rest,
        note = String a (String b rest) -> is_digit b = true ->
        dict_get (note_to_midi c) (char a) = None ->
        note_to_midi_number c note = Raise (KeyError (char a))).
Proof.
  intros _.
  unfold note_to_midi_number, char_at, int_of_digit, dict_item, is_digit, char.
  split; [| split].
  - destruct note as [| a [| b rest]]; cbn; intros Hlen;
      [reflexivity | reflexivity | lia].
  - intros a b rest -> Hb. cbn [String.get bind result_Monad ret].
    now rewrite Hb.
  - intros a b rest -> Hb Hk. cbn [String.get bind result_Monad ret].
    now rewrite Hb, Hk.
Qed.

Lemma note_to_midi_number_errors_witness :
  note_to_midi_number composer0 "" = Raise IndexError
  /\ note_to_midi_number composer0 "C" = Raise IndexError
  /\ note_to_midi_number composer0 "C#4" = Raise ValueError
  /\ note_to_midi_number composer0 "H4" = Raise (KeyError "H").
Proof.
  pose proof (@note_to_midi_number_errors composer0 "" eq_refl) as (H0 & _).
  pose proof (@note_to_midi_number_errors composer0 "C" eq_refl) as (H1 & _).
  pose proof (@note_to_midi_number_errors composer0 "C#4" eq_refl)
    as (_ & H2 & _).
  pose proof (@note_to_midi_number_errors composer0 "H4" eq_refl)
    as (_ & _ & H3).
  split; [apply H0; cbn; lia |].
  split; [apply H1; cbn; lia |].
  split; [apply (H2 "C"%char "#"%char "4"); reflexivity |].
  apply (H3 "H"%char "4"%char ""); reflexivity.
Defined.

(** X2: [note_to_midi_number] reads only the first two characters: for a
    first character in [note_to_midi] and any digit d as second, the result
    is base + (d - 4) * 12 whatever follows (so "C10" is read as C1). *)
Theorem note_to_midi_number_prefix (c : MusicComposer) (a b : ascii)
    (rest : string) (base : Z) :
  is_digit b = true ->
  dict_get (note_to_midi c) (char a) = Some base ->
  note_to_midi_number c (String a (String b rest))
  = Ok (base + (digit_value b - 4) * 12)
  /\ note_to_midi_number c (String a (String b rest))
     = note_to_midi_number c (String a (String b "")).
Proof.
  intros Hb Hk.
  unfold note_to_midi_number, char_at, int_of_digit, dict_item, is_digit,
    digit_value, char in *.
  cbn [String.get bind result_Monad ret].
  rewrite Hb, Hk. split; reflexivity.
Qed.

Lemma note_to_midi_number_prefix_witness :
  note_to_midi_number composer0 "C10" = Ok 24
  /\ note_to_midi_number composer0 "C10" = note_to_midi_number composer0 "C1".
Proof.
  apply (@note_to_midi_number_prefix composer0 "C"%char "1"%char "0" 60);
    reflexivity.
Defined.

Lemma NoDup_map_injective {A B : Type} (f : A -> B) (l : list A) :
  NoDup (map f l) ->
  forall a b, In a l -> In b l -> f a = f b -> a = b.
Proof.
  induction l as [| x l IH]; intros Hnd a b Ha Hb E; [contradiction |].
  cbn in Hnd. inversion Hnd as [| ? ? Hx Hl]. subst.
  destruct Ha as [-> | Ha], Hb as [-> | Hb]; auto.
  - exfalso. apply Hx. rewrite E. now apply in_map.
  - exfalso. apply Hx. rewrite <- E. now apply in_map.
Qed.

Lemma node_midi_numbers :
  map (note_to_midi_number composer0) (nodes (graph composer0))
  = map Ok [60; 62; 64; 65; 67; 69; 71; 72; 74; 76; 77; 79; 81; 83].
Proof. vm_compute. reflexivity. Qed.

Lemma node_midi_range (note : string) :
  In note (nodes (graph composer0)) ->
  exists p, note_to_midi_number composer0 note = Ok p /\ 60 <= p <= 83.
Proof.
  intros Hn. vm_compute in Hn.
  repeat (destruct Hn as [<- | Hn]); try contradiction;
    eexists; (split; [vm_compute; reflexivity | lia]).
Qed.

Lemma node_midi_nodup :
  NoDup (map (note_to_midi_number composer0) (nodes (graph composer0))).
Proof.
  rewrite node_midi_numbers.
  repeat constructor; intros H; cbn in H;
    repeat (destruct H as [H | H]; [discriminate |]); exact H.
Qed.

(** X3: the 14 notes of the graph have 14 different MIDI numbers, all
    between 60 and 83. *)
Theorem node_midi_numbers_distinct (c : MusicComposer) (a b : string) :
  MusicComposer_init = Ok c ->
  In a (nodes (graph c)) ->
  In b (nodes (graph c)) ->
  (exists p, note_to_midi_number c a = Ok p /\ 60 <= p <= 83)
  /\ (note_to_midi_number c a = note_to_midi_number c b -> a = b).
Proof.
  intros Hc Ha Hb. apply init_inv in Hc. subst c.
  split; [now apply node_midi_range |].
  apply NoDup_map_injective with (l := nodes (graph composer0)); auto.
  apply node_midi_nodup.
Qed.

Lemma node_midi_numbers_distinct_witness :
  (exists p, note_to_midi_number composer0 "B4" = Ok p /\ 60 <= p <= 83)
  /\ (note_to_midi_number composer0 "B4" = note_to_midi_number composer0 "C5"
      -> "B4" = "C5").
Proof.
  apply (@node_midi_numbers_distinct composer0 "B4" "C5"
           MusicComposer_init_ok); vm_compute; tauto.
Defined.

(* ------------------------------------------------------------------ *)
(** * More on the note graph *)

Lemma getitem_in_range {A : Type} (l : list A) (j : Z) :
  0 <= j < Z.of_nat (List.length l) -> exists x, getitem l j = Ok x.
Proof.
  intros Hj. replace j with (Z.of_nat (Z.to_nat j)) by lia.
  apply getitem_nat. lia.
Qed.

Lemma for_each_result_ok {A S : Type} (P : A -> Prop)
    (body : S -> A -> result S) (l : list A) :
  (forall s x, P x -> exists s', body s x = Ok s') ->
  Forall P l ->
  forall s, exists s', for_each l body s = Ok s'.
Proof.
  intros Hbody Hl. induction Hl as [| x l Hx _ IH]; intros s.
  - exists s. reflexivity.
  - destruct (Hbody s x Hx) as (s1 & E). cbn [for_each]. rewrite E. apply IH.
Qed.

Lemma enumerate_from_bounds {A : Type} (l : list A) (k : Z) :
  Forall (fun e => k <= fst e < k + Z.of_nat (List.length l))
         (enumerate_from k l).
Proof.
  revert k. induction l as [| x l IH]; intros k; cbn [enumerate_from];
    constructor.
  - cbn. lia.
  - eapply Forall_impl; [| apply IH]. cbn. intros e He. lia.
Qed.

Lemma add_note_edges_ok (names : list string) (octs : list Z) (octave : Z)
    (G : DiGraph) (e : Z * string) :
  0 <= fst e < 0 + Z.of_nat (List.length names) ->
  exists G', add_note_edges names octs octave G e = Ok G'.
Proof.
  destruct e as [i note]. cbn [fst]. intros Hi.
  unfold add_note_edges, py_mod.
  destruct (Z.eqb_spec (Z.of_nat (List.length names)) 0) as [E | _]; [lia |].
  cbn [bind result_Monad].
  destruct (@getitem_in_range _ names ((i + 1) mod Z.of_nat (List.length names)))
    as (next & ->); [apply Z.mod_pos_bound; lia |].
  destruct (@getitem_in_range _ names ((i - 1) mod Z.of_nat (List.length names)))
    as (prev & ->); [apply Z.mod_pos_bound; lia |].
  eexists. reflexivity.
Qed.

(** X4: the construction of the graph never raises, whatever the lists of
    names and octaves (empty ones included) and whatever graph it starts
    from: the indices [(i + 1) % len] and [(i - 1) % len] are always in
    range and the modulus is never 0 inside the loop. *)
Theorem create_note_graph_never_raises (names : list string)
    (octs : list Z) :
  (exists G, _create_note_graph names octs = Ok G)
  /\ forall G0, exists G, create_note_graph_from names octs G0 = Ok G.
Proof.
  assert (Hall : forall G0,
             exists G, create_note_graph_from names octs G0 = Ok G).
  { intros G0. unfold create_note_graph_from, add_all_edges.
    apply for_each_result_ok with (P := fun _ => True);
      [| apply Forall_forall; auto].
    intros G1 octave _.
    apply for_each_result_ok
      with (P := fun e => 0 <= fst e < 0 + Z.of_nat (List.length names));
      [| apply enumerate_from_bounds].
    intros G2 e He. now apply add_note_edges_ok. }
  split; [apply Hall | exact Hall].
Qed.

Lemma dict_get_Some_In {V : Type} (d : dict V) (k : string) (v : V) :
  dict_get d k = Some v -> In (k, v) d.
Proof.
  induction d as [| [k' v'] d IH]; cbn [dict_get]; [discriminate |].
  destruct (String.eqb_spec k k') as [-> | _].
  - intros E. inversion E. now left.
  - intros E. right. auto.
Qed.

(** X5: the graph is symmetric: whenever there is an edge from u to v with
    weight w there is an edge from v to u with the same weight. *)
Theorem note_graph_symmetric (c : MusicComposer) (u v : string) (w : float) :
  MusicComposer_init = Ok c ->
  edge_weight (graph c) u v = Ok w ->
  edge_weight (graph c) v u = Ok w.
Proof.
  intros Hc H. apply init_inv in Hc. subst c.
  unfold edge_weight, dict_item in H.
  destruct (dict_get (_succ (graph composer0)) u) as [a |] eqn:Eu;
    [| discriminate].
  cbn [bind result_Monad] in H.
  destruct (dict_get a v) as [w' |] eqn:Ev; [| discriminate].
  inversion H. subst w'. clear H.
  apply dict_get_Some_In in Eu. apply dict_get_Some_In in Ev.
  vm_compute in Eu.
  repeat (destruct Eu as [Eu | Eu];
          [inversion Eu; subst; clear Eu;
           repeat (destruct Ev as [Ev | Ev];
                   [inversion Ev; subst; vm_compute; reflexivity |]);
           contradiction |]).
  contradiction.
Qed.

Lemma note_graph_symmetric_witness :
  edge_weight (graph composer0) "B4" "C4" = Ok W_step
  /\ edge_weight (graph composer0) "C4" "B4" = Ok W_step.
Proof.
  split; [reflexivity |].
  apply (@note_graph_symmetric composer0 "B4" "C4" W_step
           MusicComposer_init_ok).
  reflexivity.
Defined.

Lemma reachable_mono (G : DiGraph) (u v : string) (n : nat) :
  reachable_in G u n v -> reachable_in G u (S n) v.
Proof.
  induction 1 as [n | n a b _ IH Hb]; [constructor |].
  eapply reach_step; eauto.
Qed.

Lemma reach_sound (G : DiGraph) (u v : string) (n : nat) :
  In v (reach G n u) -> reachable_in G u n v.
Proof.
  revert v. induction n as [| n IH]; intros v; cbn [reach].
  - intros [<- | []]. constructor.
  - intros Hv. apply in_app_or in Hv. destruct Hv as [Hv | Hv].
    + apply reachable_mono. auto.
    + apply in_flat_map in Hv. destruct Hv as (a & Ha & Hv).
      eapply reach_step; eauto.
Qed.

Lemma reach_all :
  forallb (fun u =>
    forallb (fun v => existsb (String.eqb v) (reach (graph composer0) 4 u))
            (nodes (graph composer0)))
    (nodes (graph composer0)) = true.
Proof. vm_compute. reflexivity. Qed.

Lemma reach_complete (G : DiGraph) (u v : string) (n : nat) :
  reachable_in G u n v -> In v (reach G n u).
Proof.
  induction 1 as [n | n a b _ IH Hb].
  - induction n as [| n IHn]; cbn [reach]; [now left |].
    apply in_or_app. now left.
  - cbn [reach]. apply in_or_app. right. apply in_flat_map. eauto.
Qed.

Lemma reach_needs_four :
  existsb (String.eqb "F5") (reach (graph composer0) 3 "C4") = false.
Proof. vm_compute. reflexivity. Qed.

(** X6: every note of the graph is reached from every other along at most
    four edges, and four are needed from C4 to F5. *)
Theorem note_graph_connected (c : MusicComposer) (u v : string) :
  MusicComposer_init = Ok c ->
  In u (nodes (graph c)) ->
  In v (nodes (graph c)) ->
  reachable_in (graph c) u 4 v
  /\ ~ reachable_in (graph c) "C4" 3 "F5".
Proof.
  intros Hc Hu Hv. apply init_inv in Hc. subst c. split.
  - pose proof reach_all as H.
    rewrite forallb_forall in H. specialize (H u Hu).
    rewrite forallb_forall in H. specialize (H v Hv).
    apply existsb_exists in H. destruct H as (x & Hx & E).
    apply String.eqb_eq in E. subst x. now apply reach_sound.
  - intros Hr. apply reach_complete in Hr.
    pose proof reach_needs_four as Hno.
    assert (Hyes : existsb (String.eqb "F5")
                     (reach (graph composer0) 3 "C4") = true)
      by (apply existsb_exists; exists "F5"; split;
          [exact Hr | apply String.eqb_refl]).
    rewrite Hno in Hyes. discriminate.
Qed.

Lemma note_graph_connected_witness :
  reachable_in (graph composer0) "C4" 4 "F5".
Proof.
  apply (@note_graph_connected composer0 "C4" "F5" MusicComposer_init_ok);
    vm_compute; tauto.
Defined.

(* ------------------------------------------------------------------ *)
(** * More on the walk *)

Lemma neighbors_successors (G : DiGraph) (n : string) (l : list string) :
  neighbors G n = Ok l -> successors G n = l.
Proof.
  unfold neighbors, successors, inner.
  destruct (dict_get (_succ G) n); intros E; now inversion E.
Qed.

Lemma edge_facts (a b : string) :
  In a (nodes (graph composer0)) ->
  In b (successors (graph composer0) a) ->
  a <> b
  /\ exists pa pb,
       note_to_midi_number composer0 a = Ok pa
       /\ note_to_midi_number composer0 b = Ok pb
       /\ In (Z.abs (pb - pa)) [1; 2; 11; 12].
Proof.
  intros Ha Hb. vm_compute in Ha.
  repeat (destruct Ha as [<- | Ha]); try contradiction;
    vm_compute in Hb;
    repeat (destruct Hb as [<- | Hb]); try contradiction;
    (split; [discriminate |]);
    do 2 eexists;
    (split; [vm_compute; reflexivity |]);
    (split; [vm_compute; reflexivity |]);
    vm_compute; tauto.
Qed.

Lemma chain_adjacent (G : DiGraph) (l : list string) (i : nat)
    (a b : string) :
  chain G l ->
  nth_error l i = Some a -> nth_error l (S i) = Some b ->
  In b (successors G a).
Proof.
  revert i. induction l as [| x l IH]; intros i Hc Ha Hb.
  - destruct i; discriminate.
  - destruct l as [| y l']; [destruct i; discriminate |].
    destruct Hc as (Hxy & Hc).
    destruct i as [| i].
    + cbn in Ha, Hb. inversion Ha. inversion Hb. now subst.
    + apply (IH i); assumption.
Qed.

Section WalkMore.

Context {RNG : Type} `{RandomSource RNG}.

Lemma skip_draws_two (k : nat) (g : RNG) :
  skip_draws (k + 2) g = skip_draws k (snd (random (snd (random g)))).
Proof. unfold skip_draws. now rewrite Nat.iter_add. Qed.

Lemma intensity_draws_succ (n : nat) (g : RNG) :
  intensity_draws (S n) g
  = fst (random (snd (random g)))
    :: intensity_draws n (snd (random (snd (random g)))).
Proof.
  unfold intensity_draws. cbn [seq map]. f_equal.
  rewrite <- seq_shift, map_map. apply map_ext. intros k.
  replace (2 * S k + 1)%nat with ((2 * k + 1) + 2)%nat by lia.
  now rewrite skip_draws_two.
Qed.

Lemma choose_next_neighbor (current_note : string) (g : RNG) :
  In current_note (nodes (graph composer0)) ->
  exists next_note,
    In next_note (successors (graph composer0) current_note)
    /\ In next_note (nodes (graph composer0))
    /\ forall mood, In mood valid_moods ->
         choose_next mood current_note {| self := composer0; rng := g |}
         = (Ok (Some next_note), {| self := composer0; rng := snd (random g) |}).
Proof.
  intros Hn.
  destruct (@valid_mood_profile "happy") as (p0 & Hp0 & Hc0 & _);
    [vm_compute; tauto |].
  destruct (@transition_table current_note _ p0 Hn Hp0)
    as (a & b & c & Hnb & Hin & _).
  destruct (@random_choices_cum0 _ _ a b c _
              {| self := composer0; rng := g |} Hc0) as (x & Hx & Hch).
  exists x.
  split; [now rewrite (neighbors_successors _ _ Hnb) |].
  split; [apply Hin, Hx |].
  intros mood Hm.
  destruct (@valid_mood_profile mood Hm) as (p & Hp & Hc & _).
  destruct (@transition_table current_note _ p Hn Hp)
    as (a' & b' & c' & Hnb' & _ & Htw).
  rewrite Hnb in Hnb'. inversion Hnb'. subst a' b' c'.
  unfold choose_next.
  erewrite bind_ok by (unfold read; cbn [self]; rewrite Hnb; reflexivity).
  cbv beta iota.
  erewrite bind_ok by (unfold read; cbn [self]; rewrite Htw; reflexivity).
  rewrite random_choices_cum with (ws2 := pattern_distribution (weight_mul p0))
    by congruence.
  erewrite bind_ok by exact Hch.
  reflexivity.
Qed.

Lemma walk_trace (iterations : nat) :
  forall (current_note : string) (melody : list string)
         (weights : list float) (g : RNG),
    In current_note (nodes (graph composer0)) ->
    exists melody',
      List.length melody' = iterations
      /\ chain (graph composer0) melody'
      /\ hd current_note melody' = current_note
      /\ incl melody' (nodes (graph composer0))
      /\ forall mood, In mood valid_moods ->
           walk iterations mood current_note melody weights
                {| self := composer0; rng := g |}
           = (Ok (melody ++ melody',
                  weights ++ intensity_draws iterations g),
              {| self := composer0; rng := skip_draws (2 * iterations) g |}).
Proof.
  induction iterations as [| n IH]; intros current_note melody weights g Hn.
  - exists []. repeat split; auto using incl_nil_l.
    intros mood _. cbn. now rewrite !app_nil_r.
  - destruct (@choose_next_neighbor current_note g Hn)
      as (next_note & Hadj & Hnext & Hstep).
    set (g2 := snd (random (snd (random g)))).
    set (x := fst (random (snd (random g)))).
    destruct (IH next_note (melody ++ [current_note]) (weights ++ [x])
                 g2 Hnext)
      as (melody' & Hl & Hch & Hhd & Hi & Hw).
    exists (current_note :: melody').
    split; [cbn; lia |].
    split.
    { destruct melody' as [| y l]; [exact I |].
      cbn in Hhd. subst y. split; assumption. }
    split; [reflexivity |].
    split; [apply incl_cons; assumption |].
    intros mood Hm. cbn [walk].
    erewrite bind_ok by (apply Hstep, Hm).
    cbv beta iota.
    erewrite bind_ok by apply random_random_eq.
    unfold after_random. cbn [self rng]. fold x. fold g2.
    rewrite (Hw mood Hm), <- !app_assoc, intensity_draws_succ.
    replace (2 * S n)%nat with (2 * n + 2)%nat by lia.
    rewrite skip_draws_two. reflexivity.
Qed.

End WalkMore.

Section GenerateMore.

Context {RNG : Type} `{RandomSource RNG}.

Lemma random_choice_eq {A : Type} (seq : list A) (w : world RNG) :
  seq <> [] ->
  random_choice seq w
  = (getitem seq (Z.of_nat (fst (randbelow (List.length seq) (rng w)))),
     after_randbelow (List.length seq) w).
Proof.
  intros Hne. destruct seq as [| a seq]; [contradiction |].
  unfold random_choice.
  erewrite bind_ok by apply random_randbelow_eq. reflexivity.
Qed.

Lemma generate_melody_trace {L : @RandomSourceLaws RNG _} (length : Z)
    (g : RNG) :
  exists start melody,
    getitem (start_notes composer0) (Z.of_nat (fst (randbelow 14 g)))
    = Ok start
    /\ List.length melody = Z.to_nat length
    /\ chain (graph composer0) melody
    /\ hd start melody = start
    /\ incl melody (nodes (graph composer0))
    /\ forall mood, In mood valid_moods ->
         generate_melody length mood {| self := composer0; rng := g |}
         = (Ok (melody,
                intensity_draws (Z.to_nat length) (snd (randbelow 14 g))),
            {| self := composer0;
               rng := skip_draws (2 * Z.to_nat length)
                                 (snd (randbelow 14 g)) |}).
Proof.
  destruct (@getitem_nat _ (start_notes composer0) (fst (randbelow 14 g)))
    as (start & Hstart).
  { apply (randbelow_lt (n := 14)). lia. }
  pose proof (start_notes_nodes (@getitem_In _ _ _ _ Hstart)) as Hin.
  destruct (@walk_trace _ _ (Z.to_nat length) start [] []
              (snd (randbelow 14 g)) Hin)
    as (melody & Hl & Hch & Hhd & Hi & Hw).
  exists start, melody. repeat (split; [assumption |]).
  intros mood Hm. rewrite generate_melody_unfold.
  erewrite bind_ok
    by (rewrite random_choice_eq by apply start_notes_nonempty;
        cbn [rng]; rewrite start_notes_length, Hstart; reflexivity).
  apply (Hw mood Hm).
Qed.

(** X7: under a valid mood the walk never stops early: the melody and the
    intensities have exactly max(length, 0) elements each, and every note
    of the melody is a node of the graph. *)
Theorem generate_melody_exact {L : @RandomSourceLaws RNG _}
    (c : MusicComposer) (length : Z) (mood : string) (g : RNG) :
  MusicComposer_init = Ok c ->
  In mood valid_moods ->
  exists melody intensities w',
    generate_melody length mood {| self := c; rng := g |}
    = (Ok (melody, intensities), w')
    /\ List.length melody = Z.to_nat length
    /\ List.length intensities = Z.to_nat length
    /\ incl melody (nodes (graph c)).
Proof.
  intros Hc Hm. apply init_inv in Hc. subst c.
  destruct (generate_melody_trace length g)
    as (start & melody & _ & Hl & _ & _ & Hi & Hg).
  do 3 eexists. split; [apply (Hg mood Hm) |].
  split; [exact Hl |]. split; [| exact Hi].
  unfold intensity_draws. now rewrite length_map, length_seq.
Qed.

(** X8: in a generated melody each note is a successor of the one before
    it in the graph; so two consecutive notes are never the same, and their
    MIDI numbers differ by 1, 2, 11 or 12 semitones (a scale step, the wrap
    between B and C of the same octave, or an octave). *)
Theorem generate_melody_steps {L : @RandomSourceLaws RNG _}
    (c : MusicComposer) (length : Z) (mood : string) (g : RNG) :
  MusicComposer_init = Ok c ->
  In mood valid_moods ->
  exists melody intensities w',
    generate_melody length mood {| self := c; rng := g |}
    = (Ok (melody, intensities), w')
    /\ forall i a b,
         nth_error melody i = Some a ->
         nth_error melody (S i) = Some b ->
         In b (successors (graph c) a)
         /\ a <> b
         /\ exists pa pb,
              note_to_midi_number c a = Ok pa
              /\ note_to_midi_number c b = Ok pb
              /\ In (Z.abs (pb - pa)) [1; 2; 11; 12].
Proof.
  intros Hc Hm. apply init_inv in Hc. subst c.
  destruct (generate_melody_trace length g)
    as (start & melody & _ & _ & Hch & _ & Hi & Hg).
  do 3 eexists. split; [apply (Hg mood Hm) |].
  intros i a b Ha Hb.
  pose proof (@chain_adjacent _ _ _ _ _ Hch Ha Hb) as Hadj.
  split; [exact Hadj |].
  apply edge_facts; [| exact Hadj].
  apply Hi. eapply nth_error_In, Ha.
Qed.


(** *** Composers other than the one the constructor builds *)

(** X10: on a composer whose start note has no outgoing edge the loop
    breaks in its first iteration, after the note was appended: the call
    returns a melody of one note and no intensity, for any mood (which is
    never looked up). *)
Theorem generate_melody_dead_end (w : world RNG) (length : Z)
    (mood start : string) :
  0 < length ->
  getitem (start_notes (self w))
          (Z.of_nat (fst (randbelow (List.length (start_notes (self w)))
                                    (rng w))))
  = Ok start ->
  dict_get (_succ (graph (self w))) start = Some [] ->
  generate_melody length mood w
  = (Ok ([start], []),
     after_randbelow (List.length (start_notes (self w))) w).
Proof.
  intros Hlen Hstart Hout.
  assert (Hne : start_notes (self w) <> []).
  { intros E. apply getitem_In in Hstart. rewrite E in Hstart.
    contradiction. }
  unfold generate_melody.
  erewrite bind_ok by (unfold read; reflexivity).
  erewrite bind_ok by (rewrite random_choice_eq by exact Hne;
                       rewrite Hstart; reflexivity).
  destruct (Z.to_nat length) as [| n] eqn:En; [lia |].
  cbn [walk]. unfold choose_next.
  erewrite bind_ok; [| erewrite bind_ok;
      [| unfold read, neighbors, after_randbelow; cbn [self];
         rewrite Hout; reflexivity]; reflexivity].
  reflexivity.
Qed.

(** X11: on a composer without candidates ([notes] or [octaves] empty)
    the call raises IndexError before any draw; on one whose start note
    is not a node of the graph it raises NetworkXError after the start
    draw (for length > 0). *)
Theorem generate_melody_bad_composer (w : world RNG) (length : Z)
    (mood : string) :
  (start_notes (self w) = [] ->
   generate_melody length mood w = (Raise IndexError, w))
  /\ (forall start,
        0 < length ->
        getitem (start_notes (self w))
                (Z.of_nat (fst (randbelow (List.length (start_notes (self w)))
                                          (rng w))))
        = Ok start ->
        dict_get (_succ (graph (self w))) start = None ->
        generate_melody length mood w
        = (Raise (NetworkXError start),
           after_randbelow (List.length (start_notes (self w))) w)).
Proof.
  split.
  - intros E. unfold generate_melody.
    erewrite bind_ok by (unfold read; reflexivity).
    rewrite E. reflexivity.
  - intros start Hlen Hstart Hout.
    assert (Hne : start_notes (self w) <> []).
    { intros E. apply getitem_In in Hstart. rewrite E in Hstart.
    contradiction. }
    unfold generate_melody.
    erewrite bind_ok by (unfold read; reflexivity).
    erewrite bind_ok by (rewrite random_choice_eq by exact Hne;
                         rewrite Hstart; reflexivity).
    destruct (Z.to_nat length) as [| n] eqn:En; [lia |].
    cbn [walk]. unfold choose_next.
    erewrite bind_raise; [reflexivity |].
    erewrite bind_raise; [reflexivity |].
    unfold read, neighbors, after_randbelow. cbn [self].
    rewrite Hout. reflexivity.
Qed.

End GenerateMore.

(* ------------------------------------------------------------------ *)
(** * [generate_melody_with_midi] *)

Section MidiFacts.

Context `{MidiLibrary}.

Lemma add_melody_notes_cons (c : MusicComposer) (track channel volume : Z)
    (note : string) (melody : list string) (st : MIDIFile * Z) :
  add_melody_notes c track channel volume (note :: melody) st
  = match note_to_midi_number c note with
    | Ok p =>
        match MIDIFile_addNote (fst st) track channel p (snd st) 1 volume with
        | Ok midifile =>
            add_melody_notes c track channel volume melody
                             (midifile, snd st + 1)
        | Raise e => Raise e
        end
    | Raise e => Raise e
    end.
Proof.
  destruct st as [file t]. unfold add_melody_notes. cbn [for_each fst snd].
  destruct (note_to_midi_number c note) as [p | e]; [| reflexivity].
  cbn [bind result_Monad].
  destruct (MIDIFile_addNote file track channel p t 1 volume); reflexivity.
Qed.

Lemma MIDIFile_addNote_inv (file file' : MIDIFile)
    (track channel pitch time duration volume : Z) :
  MIDIFile_addNote file track channel pitch time duration volume = Ok file' ->
  file' = file ++ [addNote track channel pitch time duration volume].
Proof.
  unfold MIDIFile_addNote.
  destruct (addNote_raises _ _ _ _ _ _ _); intros E; now inversion E.
Qed.

(** The loop either appends one note per melody note, or stops at a note
    without MIDI number or at a note the library refuses. *)
Lemma add_melody_notes_inv (c : MusicComposer) (track channel volume : Z)
    (melody : list string) :
  forall (st : MIDIFile * Z),
    match add_melody_notes c track channel volume melody st with
    | Ok (file', t') =>
        exists notes,
          file' = fst st ++ notes
          /\ List.length notes = List.length melody
          /\ t' = snd st + Z.of_nat (List.length melody)
    | Raise e =>
        (exists note, In note melody /\ note_to_midi_number c note = Raise e)
        \/ (exists file p t,
              addNote_raises file track channel p t 1 volume = Some e)
    end.
Proof.
  induction melody as [| note melody IH]; intros st.
  - destruct st as [file t]. cbn. exists []. rewrite app_nil_r.
    repeat split. lia.
  - rewrite add_melody_notes_cons.
    destruct (note_to_midi_number c note) as [p | e] eqn:Ep;
      [| left; exists note; split; [now left | exact Ep]].
    destruct (MIDIFile_addNote (fst st) track channel p (snd st) 1 volume)
      as [file1 | e] eqn:Ea.
    + apply MIDIFile_addNote_inv in Ea. subst file1.
      specialize (IH (fst st ++ [addNote track channel p (snd st) 1 volume],
                      snd st + 1)).
      destruct (add_melody_notes c track channel volume melody _)
        as [[file' t'] | e].
      * destruct IH as (notes & -> & Hl & ->).
        exists (addNote track channel p (snd st) 1 volume :: notes).
        cbn [fst snd]. rewrite <- app_assoc. cbn [app List.length].
        repeat split; [lia | lia].
      * destruct IH as [(n' & Hn' & E) | Hlib];
          [left; exists n'; split; [now right | exact E] | right; exact Hlib].
    + right. exists (fst st), p, (snd st).
      unfold MIDIFile_addNote in Ea.
      destruct (addNote_raises _ _ _ _ _ _ _); now inversion Ea.
Qed.




End MidiFacts.

Section MidiMore.

Context {RNG : Type} `{RandomSource RNG} `{MidiLibrary}.

(** X12: [generate_melody_with_midi] leaves composer and generator as
    [generate_melody] does, whatever the MIDI library does.  When
    [generate_melody] raises it raises the same; otherwise it either returns
    the same melody and weights with a file the library has written, made
    of the tempo call and one note call per melody note, or raises what
    [addTempo] raised, or the exception of a melody note that has no MIDI
    number, or what [addNote] or writing the file raised. *)
Theorem generate_melody_with_midi_wraps (w : world RNG) (length : Z)
    (mood : string) (tempo : Z) :
  let run := generate_melody length mood w in
  let run_midi := generate_melody_with_midi length mood tempo w in
  snd run_midi = snd run
  /\ match fst run, fst run_midi with
     | Raise e, r => r = Raise e
     | Ok mw, Ok (mw', file) =>
         mw' = mw
         /\ writeFile_raises file = None
         /\ exists notes,
              file = addTempo 0 0 tempo :: notes
              /\ List.length notes = List.length (fst mw)
     | Ok mw, Raise e =>
         addTempo_raises [] 0 0 tempo = Some e
         \/ (exists note,
               In note (fst mw)
               /\ note_to_midi_number (self (snd run)) note = Raise e)
         \/ (exists file p t, addNote_raises file 0 0 p t 1 100 = Some e)
         \/ (exists file, writeFile_raises file = Some e)
     end.
Proof.
  cbv zeta. unfold generate_melody_with_midi.
  cbn [bind M_Monad].
  destruct (generate_melody length mood w) as [[[melody weights] | e] w1];
    cbn [fst snd]; [| split; reflexivity].
  unfold lift, read, MIDIFile_addTempo. cbv beta iota zeta.
  destruct (addTempo_raises [] 0 0 tempo) as [e |] eqn:Et;
    cbn [fst snd]; [split; [reflexivity | now left] |].
  match goal with
  | |- context [add_melody_notes ?c ?tr ?ch ?vol ?m ?st] =>
      pose proof (add_melody_notes_inv c tr ch vol m st) as Hinv;
      destruct (add_melody_notes c tr ch vol m st) as [[file t] | e]
  end; cbn [fst snd] in *.
  - unfold MIDIFile_writeFile.
    destruct (writeFile_raises file) as [e |] eqn:Ew; cbn [fst snd ret M_Monad].
    + split; [reflexivity |]. right. right. right. now exists file.
    + split; [reflexivity |]. split; [reflexivity |]. split; [exact Ew |].
      destruct Hinv as (notes & -> & Hl & _). exists notes. auto.
  - split; [reflexivity |].
    destruct Hinv as [Hnote | Hlib]; [right; left | right; right; left];
      assumption.
Qed.


End MidiMore.

(* ------------------------------------------------------------------ *)
(** * [create_figure] *)

(** X14: when the melody or the weights are [None] or empty,
    [create_figure] returns the figure with the layout and no trace, and
    evaluates no note. *)
Theorem create_figure_empty (melody : option (list string))
    (weights : option (list float)) :
  melody = None \/ melody = Some [] \/ weights = None \/ weights = Some [] ->
  create_figure melody weights = Ok (figure_with []).
Proof.
  intros Hempty.
  destruct melody as [[| n l] |], weights as [[| x xs] |]; try reflexivity.
  exfalso. destruct Hempty as [E | [E | [E | E]]]; discriminate.
Qed.

Lemma node_note_value (note : string) :
  In note (nodes (graph composer0)) ->
  exists v, note_value note = Ok v /\ plotted v.
Proof.
  intros Hn. vm_compute in Hn.
  repeat (destruct Hn as [<- | Hn]); try contradiction;
    eexists; (split; [vm_compute; reflexivity | split; reflexivity]).
Qed.

Lemma comprehension_note_value (melody : list string) :
  incl melody (nodes (graph composer0)) ->
  exists ys,
    comprehension note_value melody = Ok ys
    /\ List.length ys = List.length melody
    /\ Forall plotted ys.
Proof.
  induction melody as [| note melody IH]; intros Hin.
  - exists []. repeat split. constructor.
  - destruct (@node_note_value note) as (v & Hv & Hp); [apply Hin; now left |].
    destruct (IH (fun x Hx => Hin x (or_intror Hx))) as (ys & Hys & Hl & Hf).
    exists (v :: ys). cbn [comprehension]. rewrite Hv, Hys.
    repeat split; [cbn; lia | now constructor].
Qed.

Section FigureMore.

Context {RNG : Type} `{RandomSource RNG}.

(** X15: what [generate_melody] returns under a valid mood and a positive
    length is always plotted: [create_figure] succeeds with the Melody and
    the Intensity trace, both over x = 0 .. length-1, melody values between
    113 and 131 and intensities in [0, 1). *)
Theorem create_figure_of_melody {L : @RandomSourceLaws RNG _}
    (c : MusicComposer) (length : Z) (mood : string) (g : RNG) :
  MusicComposer_init = Ok c ->
  In mood valid_moods ->
  0 < length ->
  exists melody weights w' ys,
    generate_melody length mood {| self := c; rng := g |}
    = (Ok (melody, weights), w')
    /\ create_figure (Some melody) (Some weights)
       = Ok (figure_with
               [melody_trace (range (Z.to_nat length)) ys;
                intensity_trace (range (Z.to_nat length)) weights])
    /\ List.length ys = Z.to_nat length
    /\ List.length weights = Z.to_nat length
    /\ Forall plotted ys
    /\ Forall in_unit_interval weights.
Proof.
  intros Hc Hm Hlen. apply init_inv in Hc. subst c.
  destruct (generate_melody_trace length g)
    as (start & melody & _ & Hl & _ & _ & Hi & Hg).
  destruct (comprehension_note_value Hi) as (ys & Hys & Hly & Hf).
  exists melody, (intensity_draws (Z.to_nat length) (snd (randbelow 14 g))).
  eexists. exists ys. split; [apply (Hg mood Hm) |].
  assert (Hlw : List.length
                  (intensity_draws (Z.to_nat length) (snd (randbelow 14 g)))
                = Z.to_nat length)
    by (unfold intensity_draws; now rewrite length_map, length_seq).
  split; [| split; [congruence | split; [exact Hlw | split; [exact Hf |]]]].
  - unfold create_figure.
    destruct melody as [| n0 l0]; [cbn in Hl; lia |].
    destruct (intensity_draws _ _) as [| x0 xs] eqn:Ex; [cbn in Hlw; lia |].
    cbn [truthy andb]. cbv zeta. rewrite Hys, Hl. reflexivity.
  - unfold intensity_draws. apply Forall_forall. intros x Hx.
    apply in_map_iff in Hx. destruct Hx as (k & <- & _). apply random_unit.
Qed.

End FigureMore.

(** X16: the value [create_figure] plots for a note of the graph is its
    MIDI number plus an offset that depends on the pitch class (55 for C
    down to 43 for B): A and B are plotted below C of the same octave. *)
Theorem plotted_value_offset (c : MusicComposer) (name : string)
    (octave : Z) :
  MusicComposer_init = Ok c ->
  In name (notes c) ->
  In octave (octaves c) ->
  exists p off,
    note_to_midi_number c (node_name name octave) = Ok p
    /\ dict_get plot_offset name = Some off
    /\ note_value (node_name name octave) = Ok (float_of_int (p + off)).
Proof.
  intros Hc Hn Ho. apply init_inv in Hc. subst c.
  each_octave Ho;
    vm_compute in Hn;
    destruct Hn as [<- | [<- | [<- | [<- | [<- | [<- | [<- | []]]]]]]];
    do 2 eexists;
    (split; [vm_compute; reflexivity |]);
    (split; [vm_compute; reflexivity |]);
    vm_compute; reflexivity.
Qed.

(** X17: with a single pitch class the construction makes the note its own
    neighbour: for any name and octave the graph of [[name]] and
    [[octave]] has one node, whose only outgoing edge is a self-loop of
    weight 0.7. *)
Theorem single_pitch_class_self_loop (name : string) (octave : Z) :
  exists G,
    _create_note_graph [name] [octave] = Ok G
    /\ nodes G = [node_name name octave]
    /\ dict_get (_succ G) (node_name name octave)
       = Some [(node_name name octave, W_step)].
Proof.
  unfold _create_note_graph, create_note_graph_from, add_all_edges,
    add_all_nodes, add_note_edges, add_octave_edges, enumerate.
  cbn. rewrite Z.eqb_refl. cbn.
  unfold add_edge, add_node, dict_mem, inner.
  repeat (cbn; rewrite ?String.eqb_refl).
  eexists. split; [reflexivity |]. split; [reflexivity |].
  cbn. now rewrite String.eqb_refl.
Qed.

Section ReadsProofs.

Context {RNG : Type} `{RandomSource RNG}.

Lemma respects_ret {A : Type} (a : A) : respects (RNG := RNG) (ret a).
Proof. intros w1 w2 Hs. split; [reflexivity | exact Hs]. Qed.

Lemma respects_lift {A : Type} (r : result A) : respects (RNG := RNG) (lift r).
Proof. intros w1 w2 Hs. split; [reflexivity | exact Hs]. Qed.

Lemma respects_read {A : Type} (f : MusicComposer -> result A) :
  (forall c1 c2, notes c1 = notes c2 -> octaves c1 = octaves c2 ->
                 graph c1 = graph c2 -> f c1 = f c2) ->
  respects (RNG := RNG) (read f).
Proof.
  intros Hf w1 w2 Hs. split; [| exact Hs].
  destruct Hs as (Hn & Ho & Hg & _). cbn. now apply Hf.
Qed.

Lemma respects_random : respects random_random.
Proof.
  intros w1 w2 (Hn & Ho & Hg & Hr). rewrite !random_random_eq.
  unfold after_random, same_inputs. cbn. rewrite Hr. auto.
Qed.

Lemma respects_randbelow (n : nat) : respects (random_randbelow n).
Proof.
  intros w1 w2 (Hn & Ho & Hg & Hr). rewrite !random_randbelow_eq.
  unfold after_randbelow, same_inputs. cbn. rewrite Hr. auto.
Qed.

Lemma respects_bind {A B : Type} (c : M RNG A) (k : A -> M RNG B) :
  respects c -> (forall a, respects (k a)) -> respects (bind c k).
Proof.
  intros Hc Hk w1 w2 Hs. destruct (Hc w1 w2 Hs) as (Hf & Hs'). cbn.
  destruct (c w1) as [[a1 | e1] w1'], (c w2) as [[a2 | e2] w2'];
    cbn in Hf, Hs' |- *; try discriminate.
  - inversion Hf. subst a2. now apply Hk.
  - inversion Hf. subst e2. auto.
Qed.

Lemma respects_random_choice {A : Type} (seq : list A) :
  respects (random_choice seq).
Proof.
  destruct seq as [| a seq]; [apply respects_lift |].
  unfold random_choice.
  apply respects_bind; [apply respects_randbelow | intros i].
  apply respects_lift.
Qed.

Lemma respects_random_choices {A : Type} (population : list A)
    (weights : list float) :
  respects (random_choices population weights).
Proof.
  unfold random_choices. cbv zeta.
  destruct (negb _); [apply respects_lift |].
  apply respects_bind; [apply respects_lift | intros last].
  destruct (_ <=? _)%float; [apply respects_lift |].
  destruct (negb _); [apply respects_lift |].
  apply respects_bind; [apply respects_random | intros u].
  apply respects_bind; [apply respects_lift | intros i].
  apply respects_bind; [apply respects_lift | intros x].
  apply respects_ret.
Qed.

Lemma respects_choose_next (mood current_note : string) :
  respects (choose_next mood current_note).
Proof.
  unfold choose_next.
  apply respects_bind.
  { apply respects_read. intros c1 c2 _ _ Hg. now rewrite Hg. }
  intros [| n nbrs]; [apply respects_ret |].
  apply respects_bind.
  { apply respects_read. intros c1 c2 _ _ Hg. now rewrite Hg. }
  intros ws.
  apply respects_bind; [apply respects_random_choices | intros chosen].
  apply respects_bind; [apply respects_lift | intros next].
  apply respects_ret.
Qed.

Lemma respects_walk (iterations : nat) :
  forall (mood current_note : string) (melody : list string)
         (weights : list float),
    respects (walk iterations mood current_note melody weights).
Proof.
  induction iterations as [| n IH]; intros mood current_note melody weights;
    cbn [walk]; [apply respects_ret |].
  apply respects_bind; [apply respects_choose_next | intros [next |]].
  - apply respects_bind; [apply respects_random | intros x]. apply IH.
  - apply respects_ret.
Qed.

(** X18: [generate_melody] reads of the composer only [notes], [octaves]
    and [graph]: two composers that agree on these give, from the same
    generator, the same result and the same generator afterwards;
    [note_to_midi] and [durations] play no part. *)
Theorem generate_melody_reads (length : Z) (mood : string)
    (w1 w2 : world RNG) :
  notes (self w1) = notes (self w2) ->
  octaves (self w1) = octaves (self w2) ->
  graph (self w1) = graph (self w2) ->
  rng w1 = rng w2 ->
  fst (generate_melody length mood w1) = fst (generate_melody length mood w2)
  /\ rng (snd (generate_melody length mood w1))
     = rng (snd (generate_melody length mood w2)).
Proof.
  intros Hn Ho Hg Hr.
  assert (Hres : respects (generate_melody length mood)).
  { unfold generate_melody.
    apply respects_bind.
    { apply respects_read. intros c1 c2 Hn' Ho' _.
      unfold start_notes. now rewrite Hn', Ho'. }
    intros candidates.
    apply respects_bind; [apply respects_random_choice | intros note].
    apply respects_walk. }
  destruct (Hres w1 w2) as (Hf & _ & _ & _ & Hrng);
    [repeat split; assumption |].
  split; assumption.
Qed.

End ReadsProofs.

(* ================================================================== *)
(** * The further properties on concrete runs *)

Lemma generate_melody_exact_witness :
  In "calm" valid_moods
  /\ exists melody intensities w',
       generate_melody 4 "calm" (world0 1) = (Ok (melody, intensities), w')
       /\ List.length melody = 4%nat
       /\ List.length intensities = 4%nat
       /\ incl melody (nodes (graph composer0)).
Proof.
  split; [vm_compute; tauto |].
  refine (@generate_melody_exact nat _ _ composer0 4 "calm" 1%nat
            MusicComposer_init_ok _).
  vm_compute. tauto.
Defined.

Lemma generate_melody_steps_witness :
  exists melody intensities w',
    generate_melody 6 "energetic" (world0 2)
    = (Ok (melody, intensities), w')
    /\ forall i a b,
         nth_error melody i = Some a ->
         nth_error melody (S i) = Some b ->
         In b (successors (graph composer0) a)
         /\ a <> b
         /\ exists pa pb,
              note_to_midi_number composer0 a = Ok pa
              /\ note_to_midi_number composer0 b = Ok pb
              /\ In (Z.abs (pb - pa)) [1; 2; 11; 12].
Proof.
  refine (@generate_melody_steps nat _ _ composer0 6 "energetic" 2%nat
            MusicComposer_init_ok _).
  vm_compute. tauto.
Defined.


Lemma generate_melody_dead_end_witness :
  generate_melody 3 "happy" {| self := dead_end_composer; rng := 0%nat |}
  = (Ok (["C4"], []), {| self := dead_end_composer; rng := 1%nat |}).
Proof.
  refine (@generate_melody_dead_end nat _
            {| self := dead_end_composer; rng := 0%nat |} 3 "happy" "C4"
            _ _ _).
  - lia.
  - reflexivity.
  - reflexivity.
Defined.

Lemma generate_melody_bad_composer_witness :
  generate_melody 3 "happy" {| self := silent_composer; rng := 0%nat |}
  = (Raise IndexError, {| self := silent_composer; rng := 0%nat |})
  /\ generate_melody 3 "happy" {| self := detached_composer; rng := 0%nat |}
     = (Raise (NetworkXError "C4"),
        {| self := detached_composer; rng := 1%nat |}).
Proof.
  split.
  - refine (proj1 (@generate_melody_bad_composer nat _
                     {| self := silent_composer; rng := 0%nat |} 3 "happy")
              _).
    reflexivity.
  - refine (proj2 (@generate_melody_bad_composer nat _
                     {| self := detached_composer; rng := 0%nat |} 3 "happy")
              "C4" _ _ _).
    + lia.
    + reflexivity.
    + reflexivity.
Defined.


Example generate_melody_with_midi_run :
  fst (generate_melody_with_midi 2 "happy" 120 (world0 3))
  = Ok ((["D5"; "D4"], [0; 0.25]%float),
        [addTempo 0 0 120; addNote 0 0 74 0 1 100; addNote 0 0 62 1 1 100]).
Proof. vm_compute. reflexivity. Qed.

Example generate_melody_with_midi_tempo_zero :
  generate_melody_with_midi 2 "happy" 0 (world0 3)
  = (Raise ZeroDivisionError, world0 8).
Proof. vm_compute. reflexivity. Qed.

Example generate_melody_with_midi_tempo_negative :
  generate_melody_with_midi 2 "happy" (-120) (world0 3)
  = (Raise (OtherError "struct.error"), world0 8).
Proof. vm_compute. reflexivity. Qed.

Lemma create_figure_empty_witness :
  create_figure (Some ["?"]) (Some []) = Ok (figure_with [])
  /\ create_figure None (Some [0.5%float]) = Ok (figure_with []).
Proof.
  split.
  - apply (@create_figure_empty (Some ["?"]) (Some [])). tauto.
  - apply (@create_figure_empty None (Some [0.5%float])). tauto.
Defined.

Lemma create_figure_of_melody_witness :
  exists melody weights w' ys,
    generate_melody 2 "happy" (world0 3) = (Ok (melody, weights), w')
    /\ create_figure (Some melody) (Some weights)
       = Ok (figure_with [melody_trace [0; 1] ys;
                          intensity_trace [0; 1] weights])
    /\ List.length ys = 2%nat
    /\ List.length weights = 2%nat
    /\ Forall plotted ys
    /\ Forall in_unit_interval weights.
Proof.
  refine (@create_figure_of_melody nat _ _ composer0 2 "happy" 3%nat
            MusicComposer_init_ok _ _).
  - vm_compute. tauto.
  - lia.
Defined.

Example create_figure_run :
  create_figure (Some ["D5"; "D4"]) (Some [0; 0.25]%float)
  = Ok (figure_with [melody_trace [0; 1] [128; 116]%float;
                     intensity_trace [0; 1] [0; 0.25]%float]).
Proof. vm_compute. reflexivity. Qed.

Lemma plotted_value_offset_witness :
  note_to_midi_number composer0 "A4" = Ok 69
  /\ note_value "A4" = Ok 113%float
  /\ note_to_midi_number composer0 "C4" = Ok 60
  /\ note_value "C4" = Ok 115%float.
Proof.
  destruct (@plotted_value_offset composer0 "A" 4 MusicComposer_init_ok)
    as (pa & oa & Hpa & Hoa & Hva); [vm_compute; tauto .. |].
  destruct (@plotted_value_offset composer0 "C" 4 MusicComposer_init_ok)
    as (pc & oc & Hpc & Hoc & Hvc); [vm_compute; tauto .. |].
  vm_compute in Hpa, Hoa, Hpc, Hoc.
  inversion Hpa. inversion Hoa. inversion Hpc. inversion Hoc.
  subst pa oa pc oc.
  split; [reflexivity |]. split; [exact Hva |].
  split; [reflexivity | exact Hvc].
Defined.

Lemma generate_melody_reads_witness :
  fst (generate_melody 5 "sad" (world0 4))
  = fst (generate_melody 5 "sad" {| self := stripped_composer; rng := 4%nat |}).
Proof.
  apply (@generate_melody_reads nat _ 5 "sad" (world0 4)
           {| self := stripped_composer; rng := 4%nat |});
    reflexivity.
Defined.
